(** * NL-ProjectAnalyzer: ignore-pattern engine and statistics aggregation

    A shallow embedding of [project_analyzer.py] (the [IgnoreMatcher] class,
    the [FileStats] class, [is_binary_file], [get_list_stats],
    [analyze_complexity], [calculate_stats], the file report of
    [save_csv_reports], the largest files of [save_html_report] and [main]
    up to the end of its scanning loop) together with the properties of
    the specification that concern them.

    Conventions.
    - A Python [str] is a list of Unicode code points ([list N]); [lit]
      embeds an ASCII literal.  A Python [int] is a [Z].
    - [Counter] objects are finite maps ([gmap]) from keys to [Z].
    - Code that can raise runs in a small state-and-exception monad, so that
      the placement of every [try]/[except] of the source is visible.
    - The operating system is POSIX ([os.sep] is the slash). *)

From Stdlib Require Import ZArith NArith String Ascii.
From stdpp Require Import gmap list sorting.

Set Warnings "-register-all".
Local Open Scope Z_scope.

(** ** Python strings *)

Module Py.

Abbreviation str := (list N).

Definition lit (s : string) : str := N_of_ascii <$> list_ascii_of_string s.

(** [s.startswith(p)] *)
Fixpoint startswith (s p : str) : bool :=
  match p, s with
  | [], _ => true
  | _ :: _, [] => false
  | c :: p', d :: s' => (c =? d)%N && startswith s' p'
  end.

(** [s.endswith(p)] *)
Definition endswith (s p : str) : bool := startswith (reverse s) (reverse p).

Fixpoint lstrip_with (f : N → bool) (s : str) : str :=
  match s with
  | [] => []
  | c :: s' => if f c then lstrip_with f s' else s
  end.

Definition rstrip_with (f : N → bool) (s : str) : str :=
  reverse (lstrip_with f (reverse s)).

(** [s.rstrip(c)] for a one-character argument *)
Definition rstrip_char (c : N) (s : str) : str := rstrip_with (N.eqb c) s.

Definition in_range (lo hi c : N) : bool := ((lo <=? c) && (c <=? hi))%N.

(** [c.isspace()]: the code points CPython classifies as whitespace. *)
Definition isspace (c : N) : bool :=
  in_range 9 13 c || in_range 28 32 c || (c =? 133)%N || (c =? 160)%N
  || (c =? 5760)%N || in_range 8192 8202 c || (c =? 8232)%N || (c =? 8233)%N
  || (c =? 8239)%N || (c =? 8287)%N || (c =? 12288)%N.

(** Membership in [string.whitespace], the six characters space, tab,
    newline, carriage return, vertical tab and form feed. *)
Definition in_string_whitespace (c : N) : bool :=
  (c =? 32)%N || in_range 9 13 c.

(** Membership in [string.punctuation], the 32 ASCII punctuation marks. *)
Definition in_string_punctuation (c : N) : bool :=
  in_range 33 47 c || in_range 58 64 c || in_range 91 96 c || in_range 123 126 c.

(** The line boundaries of [str.splitlines]. *)
Definition is_linebreak (c : N) : bool :=
  in_range 10 13 c || in_range 28 30 c || (c =? 133)%N || (c =? 8232)%N
  || (c =? 8233)%N.

(** [s.strip()] *)
Definition strip (s : str) : str := rstrip_with isspace (lstrip_with isspace s).

(** [s.split()]: maximal runs of non-whitespace characters. *)
Fixpoint split_from (cur : str) (s : str) : list str :=
  match s with
  | [] => if bool_decide (cur = []) then [] else [cur]
  | c :: s' =>
      if isspace c
      then (if bool_decide (cur = []) then [] else [cur]) ++ split_from [] s'
      else split_from (cur ++ [c]) s'
  end.

Definition split (s : str) : list str := split_from [] s.

(** [s.splitlines()]: a carriage return followed by a newline is one
    boundary; no empty last line is produced after a final boundary. *)
Fixpoint splitlines_from (cur : str) (s : str) : list str :=
  match s with
  | [] => if bool_decide (cur = []) then [] else [cur]
  | c :: s' =>
      if (c =? 13)%N then
        match s' with
        | d :: s'' =>
            if (d =? 10)%N then cur :: splitlines_from [] s''
            else cur :: splitlines_from [] s'
        | [] => [cur]
        end
      else if is_linebreak c then cur :: splitlines_from [] s'
      else splitlines_from (cur ++ [c]) s'
  end.

Definition splitlines (s : str) : list str := splitlines_from [] s.

(** [s.translate(str.maketrans(string.punctuation, ' ' * 32))] *)
Definition punctuation_to_space (s : str) : str :=
  (λ c, if in_string_punctuation c then 32%N else c) <$> s.

(** [s.translate(str.maketrans('', '', string.whitespace))] *)
Definition delete_whitespace (s : str) : str :=
  filter (λ c, in_string_whitespace c = false) s.

(** [s.replace(a, b)] for one-character [a] and [b] *)
Definition replace_char (a b : N) (s : str) : str :=
  (λ c, if (c =? a)%N then b else c) <$> s.

(** [len(s)] *)
Definition len {A} (l : list A) : Z := Z.of_nat (length l).

(** [s.split(c)] for a one-character separator: never empty. *)
Fixpoint split_on (c : N) (s : str) : list str :=
  match s with
  | [] => [[]]
  | d :: s' =>
      if (d =? c)%N then [] :: split_on c s'
      else match split_on c s' with
           | [] => [[d]]
           | w :: ws => (d :: w) :: ws
           end
  end.

(** [c.join(l)] for a one-character [c] *)
Fixpoint join_with (c : N) (l : list str) : str :=
  match l with
  | [] => []
  | [x] => x
  | x :: l' => x ++ c :: join_with c l'
  end.

End Py.

(** ** Exceptions *)

Inductive exn :=
| OSError             (* file system failures *)
| ValueError
| UnicodeDecodeError
| IndexError
| OtherException      (* any other subclass of [Exception] *)
| SystemExit (code : Z).

(** [except Exception] catches everything but [SystemExit]. *)
Definition is_Exception (e : exn) : bool :=
  match e with SystemExit _ => false | _ => true end.

Inductive result (A : Type) :=
| Ok (a : A)
| Raise (e : exn).
Arguments Ok {A} a.
Arguments Raise {A} e.

(** ** [os.path] on POSIX *)

Module OsPath.
Import Py.

Definition sep : N := 47.
Definition curdir : str := lit ".".
Definition pardir : str := lit "..".

(** [os.path.isabs] *)
Definition isabs (p : str) : bool := startswith p [sep].

(** [os.path.join(a, b)] *)
Definition join (a b : str) : str :=
  if startswith b [sep] then b
  else if bool_decide (a = []) || endswith a [sep] then a ++ b
  else a ++ sep :: b.

(** [os.path.join] applied to the members of a non-empty [l] *)
Definition join_all (l : list str) : str :=
  match l with
  | [] => []
  | a :: l' => fold_left join l' a
  end.

(** [os.path.basename]: what follows the last separator. *)
Fixpoint basename_from (cur : str) (p : str) : str :=
  match p with
  | [] => cur
  | c :: p' => if (c =? sep)%N then basename_from [] p' else basename_from (cur ++ [c]) p'
  end.

Definition basename (p : str) : str := basename_from [] p.

(** [os.path.splitext(p)[1]]: the extension starts at the last dot of the
    base name, provided a character other than a dot precedes it. *)
Definition splitext_ext (p : str) : str :=
  let rest := lstrip_with (N.eqb 46) (basename p) in
  match reverse (split_on 46 rest) with
  | e :: _ :: _ => 46%N :: e
  | _ => []
  end.

Definition splitext (p : str) : str * str :=
  let e := splitext_ext p in (take (length p - length e) p, e).

(** One iteration of the loop of [os.path.normpath]. *)
Definition normpath_step (initial_slashes : nat) (new_comps : list str) (comp : str)
    : list str :=
  if bool_decide (comp = []) || bool_decide (comp = curdir) then new_comps
  else if bool_decide (comp ≠ pardir)
          || (bool_decide (initial_slashes = 0%nat) && bool_decide (new_comps = []))
          || bool_decide (last new_comps = Some pardir)
       then new_comps ++ [comp]
       else removelast new_comps.

Definition initial_slashes (p : str) : nat :=
  if startswith p [sep] then
    if startswith p [sep; sep] && negb (startswith p [sep; sep; sep])
    then 2%nat else 1%nat
  else 0%nat.

Definition norm_comps (p : str) : list str :=
  fold_left (normpath_step (initial_slashes p)) (split_on sep p) [].

(** [os.path.normpath] *)
Definition normpath (p : str) : str :=
  if bool_decide (p = []) then curdir
  else
    let r := replicate (initial_slashes p) sep ++ join_with sep (norm_comps p) in
    if bool_decide (r = []) then curdir else r.

(** [os.path.abspath], with the working directory of the process as [cwd] *)
Definition abspath (cwd p : str) : str :=
  if isabs p then normpath p else normpath (join cwd p).

Fixpoint commonprefix (a b : list str) : list str :=
  match a, b with
  | x :: a', y :: b' => if bool_decide (x = y) then x :: commonprefix a' b' else []
  | _, _ => []
  end.

Definition nonempty_comps (p : str) : list str :=
  filter (λ x, x ≠ []) (split_on sep p).

(** [os.path.relpath(path, start)]; raises [ValueError] on an empty path. *)
Definition relpath (cwd path start : str) : result str :=
  if bool_decide (path = []) then Raise ValueError
  else
    let start_list := nonempty_comps (abspath cwd start) in
    let path_list := nonempty_comps (abspath cwd path) in
    let i := length (commonprefix start_list path_list) in
    let rel_list := replicate (length start_list - i) pardir ++ drop i path_list in
    if bool_decide (rel_list = []) then Ok curdir else Ok (join_all rel_list).

End OsPath.

(** ** [fnmatch.fnmatch] on POSIX

    The pattern is first translated ([fnmatch.translate]) and the result is
    matched against the whole name.  A star matches any run of characters,
    separators included; a question mark matches one character; a bracket
    expression matches one character of the listed characters and ranges (or
    outside them after an exclamation mark); a bracket that is never closed
    stands for itself. *)

Module Fnmatch.
Import Py.

Inductive tok :=
| TStar
| TAny
| TLit (c : N)
| TSet (neg : bool) (items : list (N * N)).

(** The members of a bracket expression: [a-b] is a range. *)
Fixpoint set_items (s : str) : list (N * N) :=
  match s with
  | [] => []
  | a :: s' =>
      match s' with
      | d :: b :: s'' => if (d =? 45)%N then (a, b) :: set_items s'' else (a, a) :: set_items s'
      | _ => (a, a) :: set_items s'
      end
  end.

(** [scan_set s]: with [s] what follows an opening bracket, the text up to
    the closing bracket and what follows it.  A closing bracket in first
    position (after the optional exclamation mark) is an ordinary member. *)
Fixpoint until_close (acc s : str) : option (str * str) :=
  match s with
  | [] => None
  | c :: s' => if (c =? 93)%N then Some (acc, s') else until_close (acc ++ [c]) s'
  end.

Definition scan_set (s : str) : option (str * str) :=
  let '(bang, s1) := match s with
                     | c :: s' => if (c =? 33)%N then ([c], s') else ([], s)
                     | [] => ([], s)
                     end in
  let '(first, s2) := match s1 with
                      | c :: s' => if (c =? 93)%N then ([c], s') else ([], s1)
                      | [] => ([], s1)
                      end in
  until_close (bang ++ first) s2.

Fixpoint translate_fuel (fuel : nat) (pat : str) : list tok :=
  match fuel, pat with
  | O, _ | _, [] => []
  | S fuel', c :: rest =>
      if (c =? 42)%N then TStar :: translate_fuel fuel' rest
      else if (c =? 63)%N then TAny :: translate_fuel fuel' rest
      else if (c =? 91)%N then
        match scan_set rest with
        | None => TLit c :: translate_fuel fuel' rest
        | Some (stuff, rest') =>
            match stuff with
            | b :: stuff' =>
                if (b =? 33)%N then TSet true (set_items stuff') :: translate_fuel fuel' rest'
                else TSet false (set_items stuff) :: translate_fuel fuel' rest'
            | [] => TSet false [] :: translate_fuel fuel' rest'
            end
        end
      else TLit c :: translate_fuel fuel' rest
  end.

(** Every step consumes a character, so the length of the pattern is
    enough fuel. *)
Definition translate (pat : str) : list tok := translate_fuel (length pat) pat.

Definition in_items (items : list (N * N)) (c : N) : bool :=
  existsb (λ r, in_range r.1 r.2 c) items.

Fixpoint match_toks (ts : list tok) (s : str) : bool :=
  match ts with
  | [] => bool_decide (s = [])
  | TStar :: ts' =>
      (fix star (s : str) : bool :=
         match_toks ts' s || match s with [] => false | _ :: s' => star s' end) s
  | TAny :: ts' => match s with [] => false | _ :: s' => match_toks ts' s' end
  | TLit c :: ts' =>
      match s with [] => false | d :: s' => (c =? d)%N && match_toks ts' s' end
  | TSet neg items :: ts' =>
      match s with
      | [] => false
      | d :: s' => xorb neg (in_items items d) && match_toks ts' s'
      end
  end.

(** [fnmatch.fnmatch(name, pat)]; [os.path.normcase] is the identity. *)
Definition fnmatch (name pat : str) : bool := match_toks (translate pat) name.

End Fnmatch.

(** ** A state-and-exception monad

    A computation of type [M S A] runs on a mutable object of type [S]; it
    returns a value or raises, and in both cases leaves the object as
    mutated so far, which is what an [except] clause then sees. *)

Definition M (S A : Type) : Type := S → result A * S.

Definition ret {S A} (a : A) : M S A := λ s, (Ok a, s).

Definition bind {S A B} (m : M S A) (k : A → M S B) : M S B :=
  λ s, match m s with
       | (Ok a, s') => k a s'
       | (Raise e, s') => (Raise e, s')
       end.

Definition raise {S A} (e : exn) : M S A := λ s, (Raise e, s).

Definition lift {S A} (r : result A) : M S A := λ s, (r, s).

Definition get {S} : M S S := λ s, (Ok s, s).

Definition modify {S} (f : S → S) : M S unit := λ s, (Ok tt, f s).

(** [try: body except Exception: handler] *)
Definition try_except {S A} (body : M S A) (handler : exn → M S A) : M S A :=
  λ s, match body s with
       | (Ok a, s') => (Ok a, s')
       | (Raise e, s') => if is_Exception e then handler e s' else (Raise e, s')
       end.

(** [for x in l: body x] *)
Fixpoint for_each {S A} (l : list A) (body : A → M S unit) : M S unit :=
  match l with
  | [] => ret tt
  | x :: l' => bind (body x) (λ _, for_each l' body)
  end.

Declare Scope py_scope.
Delimit Scope py_scope with py.
Notation "'let!' x ':=' m 'in' k" := (bind m (λ x, k))
  (at level 10, x name, m at level 100, k at level 200, only parsing) : py_scope.
Notation "'do!' m 'in' k" := (bind m (λ _, k))
  (at level 10, m at level 100, k at level 200, only parsing) : py_scope.

(** The same for code without a mutable object. *)
Definition rbind {A B} (r : result A) (k : A → result B) : result B :=
  match r with Ok a => k a | Raise e => Raise e end.

(** [try: r except ValueError: h] *)
Definition except_ValueError {A} (r : result A) (h : result A) : result A :=
  match r with
  | Raise ValueError => h
  | _ => r
  end.

(** ** The file system

    A tree of directories and files.  A file is known by what each way of
    reading it used in the program gives: [os.stat]; [open(p, 'rb')]
    followed by [read]; [open(p, 'r', encoding='utf-8', errors='ignore')]
    followed by [read()] (decoded text, newlines translated); and the lines
    delivered by iterating [open(p, 'r', encoding='utf-8')], which may end
    with a failure (an undecodable byte, or the file cannot be opened).
    Content that cannot be read is [None] and raises [OSError].  A directory
    may also list an entry that cannot be examined at all, such as a
    dangling symbolic link: [os.stat] and [open] fail on it.

    A symbolic link is known by the node it points to: [os.stat], [open],
    [os.path.exists] and [os.path.isdir] follow links, and so does the
    look-up of a path that goes through one; [os.walk], called without
    [followlinks], lists a link to a directory among the sub-directories
    but does not descend into it.  A directory may be closed to listing (no
    read permission) while its entries can still be reached by name:
    [os.walk], called without [onerror], passes over it in silence.

    A path is looked up after [os.path.abspath] has normalized it, as [main]
    does for the target directory; this is what the operating system does
    as long as no [..] component follows a link or a name that is
    missing. *)

Module Fs.
Import Py OsPath.

Abbreviation bytes := (list Byte.byte).

Record stat_result := {
  st_size : Z;
  st_blocks : option Z   (* absent where the platform has no [st_blocks] *)
}.

Inductive read_failure :=
| CannotOpen
| CannotDecode.

Record file_data := {
  f_stat : stat_result;
  f_binary : option bytes;
  f_text : option str;
  f_lines : list str * option read_failure
}.

Inductive node :=
| File (d : file_data)
| Dir (st : stat_result) (entries : list (str * node))
| Broken
| Link (target : node)                                    (* a symbolic link *)
| Locked (st : stat_result) (entries : list (str * node)) (* a directory that
                                                             cannot be listed *).

Definition os_error {A} (o : option A) : result A :=
  match o with
  | Some a => Ok a
  | None => Raise OSError
  end.

Definition read_error (f : read_failure) : exn :=
  match f with
  | CannotOpen => OSError
  | CannotDecode => UnicodeDecodeError
  end.

Record filesystem := {
  fs_root : node;     (* the directory [/] *)
  fs_cwd : str        (* [os.getcwd()], an absolute path *)
}.

Fixpoint entry (name : str) (entries : list (str * node)) : option node :=
  match entries with
  | [] => None
  | (n, x) :: es => if bool_decide (n = name) then Some x else entry name es
  end.

(** What a chain of symbolic links ends in. *)
Fixpoint follow (n : node) : node :=
  match n with
  | Link target => follow target
  | File _ | Dir _ _ | Broken | Locked _ _ => n
  end.

Fixpoint descend (n : node) (comps : list str) : option node :=
  match comps with
  | [] => Some n
  | c :: cs =>
      match follow n with
      | File _ | Broken | Link _ => None
      | Dir _ es | Locked _ es =>
          match entry c es with
          | Some n' => descend n' cs
          | None => None
          end
      end
  end.

(** The node that a path leads to, links followed. *)
Definition resolve (fs : filesystem) (p : str) : option node :=
  if bool_decide (p = []) then None
  else follow <$> descend (fs_root fs) (nonempty_comps (abspath (fs_cwd fs) p)).

(** [os.path.exists] *)
Definition exists_ (fs : filesystem) (p : str) : bool :=
  match resolve fs p with
  | Some (File _) | Some (Dir _ _) | Some (Locked _ _) => true
  | Some Broken | Some (Link _) | None => false
  end.

(** [os.path.isdir] *)
Definition isdir (fs : filesystem) (p : str) : bool :=
  match resolve fs p with Some (Dir _ _) | Some (Locked _ _) => true | _ => false end.

(** [os.stat] *)
Definition stat (fs : filesystem) (p : str) : result stat_result :=
  match resolve fs p with
  | Some (File d) => Ok (f_stat d)
  | Some (Dir st _) | Some (Locked st _) => Ok st
  | Some Broken | Some (Link _) | None => Raise OSError
  end.

(** [open(p, 'rb')] followed by [read(n)] *)
Definition read_binary (fs : filesystem) (p : str) (n : nat) : result bytes :=
  match resolve fs p with
  | Some (File d) => rbind (os_error (f_binary d)) (λ b, Ok (take n b))
  | _ => Raise OSError
  end.

(** [open(p, 'r', encoding='utf-8', errors='ignore')] followed by [read()] *)
Definition read_text (fs : filesystem) (p : str) : result str :=
  match resolve fs p with
  | Some (File d) => os_error (f_text d)
  | _ => Raise OSError
  end.

(** The lines that iterating [open(p, 'r', encoding='utf-8')] delivers, and
    the exception that ends the iteration, if any. *)
Definition read_lines (fs : filesystem) (p : str) : list str * option exn :=
  match resolve fs p with
  | Some (File d) => ((f_lines d).1, read_error <$> (f_lines d).2)
  | _ => ([], Some OSError)
  end.

(** [entry.is_dir()] of [os.scandir], which follows links *)
Definition is_dir_node (n : node) : bool :=
  match follow n with
  | Dir _ _ | Locked _ _ => true
  | File _ | Broken | Link _ => false
  end.

(** [os.walk(top)], top-down, consumed by a loop whose body may prune the
    list of sub-directories it is handed (the in-place assignment to
    [dirs] of the source) and updates the loop state [S].  The body gets
    the directory path, the names of its sub-directories and the names of
    its other entries, and gives back the sub-directories to descend into.
    A path that is not a directory yields nothing, and neither does a
    directory that cannot be listed; a sub-directory that is a symbolic
    link is listed and not descended into. *)
Fixpoint walk_node {S : Type}
    (body : str → list str → list str → S → result (list str * S))
    (top : str) (n : node) (s : S) : result S :=
  match n with
  | File _ | Broken | Link _ | Locked _ _ => Ok s
  | Dir _ entries =>
      let dirs := (filter (λ e, is_dir_node e.2 = true) entries).*1 in
      let nondirs := (filter (λ e, is_dir_node e.2 = false) entries).*1 in
      rbind (body top dirs nondirs s) (λ '(dirs', s'),
        (fix descend_into (es : list (str * node)) (s : S) : result S :=
           match es with
           | [] => Ok s
           | (name, n') :: es' =>
               if is_dir_node n' && bool_decide (name ∈ dirs')
               then rbind (walk_node body (join top name) n' s) (descend_into es')
               else descend_into es' s
           end) entries s')
  end.

Definition walk {S : Type}
    (body : str → list str → list str → S → result (list str * S))
    (fs : filesystem) (top : str) (s : S) : result S :=
  match resolve fs top with
  | Some n => walk_node body top n s
  | None => Ok s
  end.

End Fs.

(** ** The analyzer *)

(** [self.skipped]: a [bool] on a fresh record, an [int] once
    [self.skipped += 1] has run. *)
Inductive skip :=
| Flag (b : bool)
| Tally (n : Z).

(** Truth value, as tested by [if other.skipped]. *)
Definition truthy (k : skip) : bool :=
  match k with
  | Flag b => b
  | Tally n => negb (n =? 0)
  end.

(** The value as an integer ([True] is 1, [False] is 0). *)
Definition skip_value (k : skip) : Z :=
  match k with
  | Flag b => Z.b2z b
  | Tally n => n
  end.

(** [k += 1] *)
Definition skip_incr (k : skip) : skip := Tally (skip_value k + 1).

(** ** [Counter] *)

Abbreviation Counter := (gmap (list N) Z).

(** [c[k]]: a missing key counts zero. *)
Definition counter_get (c : Counter) (k : list N) : Z := default 0 (c !! k).

(** [c[k] += 1] *)
Definition counter_incr (k : list N) (c : Counter) : Counter :=
  <[k := counter_get c k + 1]> c.

(** [c.update(words)] for a list of words *)
Definition counter_update_list (c : Counter) (words : list (list N)) : Counter :=
  fold_left (λ c w, counter_incr w c) words c.

(** [c.update(other)] for another [Counter] *)
Definition counter_update (c other : Counter) : Counter :=
  union_with (λ x y, Some (x + y)) c other.

(** [sum(c.values())] *)
Definition counter_total (c : Counter) : Z :=
  map_fold (λ _ v acc, v + acc) 0 c.

(** [list(c.keys())[0]]; the records this is applied to hold at most one
    key. *)
Definition counter_first_key (c : Counter) : result (list N) :=
  match map_to_list c with
  | [] => Raise IndexError
  | (k, _) :: _ => Ok k
  end.

Definition BINARY_EXTENSIONS : list (list N) :=
  Py.lit <$> [".png"; ".jpg"; ".jpeg"; ".gif"; ".ico"; ".pdf"; ".zip"; ".tar"; ".gz";
              ".exe"; ".dll"; ".so"; ".bin"; ".dat"; ".mp3"; ".mp4"; ".avi"; ".mov";
              ".woff"; ".woff2"; ".ttf"; ".eot"]%string.

Definition BLOCK_SIZE : Z := 4096.

(** ** Numbers and the run-time library *)

(** A Python [float] is an IEEE-754 binary64 value, kept as its 64 bits.
    No floating-point arithmetic is modelled: the library functions that
    produce floats belong to the [runtime] below. *)
Record float := Float64 { float_bits : Z }.

(** A number is an [int] or a [float]. *)
Inductive num :=
| Int (z : Z)
| Float (x : float).

(** What [lizard.analyze_file] returns: the cyclomatic complexity of each
    function found, and their average. *)
Record analysis := {
  function_list : list Z;
  average_cyclomatic_complexity : num
}.

(** The parts of the Python run time that are taken as given. *)
Record runtime := {
  (** [str.lower], which follows the Unicode case tables *)
  str_lower : list N → list N;
  (** [round(x, 2)] on a float *)
  round2_float : float → float;
  (** [statistics.mean] and [statistics.median] on a non-empty list of
      integers *)
  statistics_mean : list Z → num;
  statistics_median : list Z → num;
  (** the optional [lizard] module: [None] when [import lizard] fails;
      an analysis that fails gives [None] and raises *)
  lizard_analyze_file : option (list N → option analysis)
}.

Definition HAS_LIZARD (rt : runtime) : bool :=
  match lizard_analyze_file rt with Some _ => true | None => false end.

(** [round(x, 2)]: an [int] is returned unchanged. *)
Definition round2 (rt : runtime) (x : num) : num :=
  match x with
  | Int z => Int z
  | Float f => Float (round2_float rt f)
  end.

Definition analysis_result (o : option analysis) : result analysis :=
  match o with
  | Some a => Ok a
  | None => Raise OtherException
  end.

(** [max(l)]; raises [ValueError] on an empty list. *)
Definition py_max (l : list Z) : result Z :=
  match l with
  | [] => Raise ValueError
  | x :: l' => Ok (fold_left Z.max l' x)
  end.

(** ** [class IgnoreMatcher] *)

Module IgnoreMatcher.
Import Py OsPath Fnmatch.

Record t := {
  root_dir : str;
  patterns : list str
}.

Definition append_pattern (line : str) (self : t) : t :=
  {| root_dir := root_dir self; patterns := patterns self ++ [line] |}.

(** [load_patterns(self, filepath)] *)
Definition load_patterns (fs : Fs.filesystem) (filepath : str) : M t unit :=
  try_except
    (let '(lines, failure) := Fs.read_lines fs filepath in
     do! for_each lines (λ line,
           let line := strip line in
           if bool_decide (line = []) || startswith line (lit "#") then ret tt
           else modify (append_pattern line)) in
     match failure with
     | Some e => raise e
     | None => ret tt
     end)%py
    (λ _, ret tt (* a warning goes to the error stream *)).

(** [__init__(self, root_dir)]; [script_dir] is the directory of the
    script. *)
Definition init (fs : Fs.filesystem) (script_dir root_dir : str) : result t :=
  let load_if_exists (p : str) : M t unit :=
    if Fs.exists_ fs p then load_patterns fs p else ret tt in
  let body : M t unit :=
    (do! load_if_exists (join script_dir (lit ".analyzerignore")) in
     do! load_if_exists (join root_dir (lit ".gitignore")) in
     load_if_exists (join root_dir (lit ".analyzerignore")))%py in
  match body {| root_dir := root_dir; patterns := [] |} with
  | (Ok _, self) => Ok self
  | (Raise e, _) => Raise e
  end.

(** The three rules of the loop body of [is_ignored], for one pattern. *)
Definition pattern_matches (fs : Fs.filesystem) (root_dir rel_path name pattern : str)
    : bool :=
  let clean_pattern := rstrip_char sep pattern in
  fnmatch name clean_pattern
  || fnmatch rel_path clean_pattern
  || ((endswith pattern [sep] || Fs.isdir fs (join root_dir pattern))
      && startswith rel_path (clean_pattern ++ [sep])).

(** [is_ignored(self, path)] *)
Definition is_ignored (fs : Fs.filesystem) (self : t) (path : str) : result bool :=
  rbind (except_ValueError (relpath (Fs.fs_cwd fs) path (root_dir self)) (Ok path))
    (λ rel_path,
       let rel_path := replace_char sep 47 rel_path in
       let name := basename path in
       Ok (existsb (pattern_matches fs (root_dir self) rel_path name) (patterns self))).

End IgnoreMatcher.

(** ** [class FileStats] *)

Module FileStats.
Import Py OsPath.

(** The dictionary returned by [get_list_stats]. *)
Record summary := {
  s_min : Z;
  s_max : Z;
  s_mean : num;
  s_median : num
}.

Record t := {
  filepath : option str;
  relpath : option str;
  filename : str;
  count : Z;
  size : Z;
  disk_usage : Z;
  char_count : Z;
  char_count_no_space : Z;
  line_count : Z;
  word_counter : Counter;
  lines_lengths : list Z;
  extensions : Counter;
  skipped : skip;
  stats_summary : option summary;   (* [None] is the empty dictionary *)
  complexity_avg : num;
  complexity_max : Z;
  functions_count : Z
}.

(** Truth value of an optional string: neither [None] nor empty. *)
Definition nonempty (p : option str) : option str :=
  match p with
  | Some (c :: s) => Some (c :: s)
  | _ => None
  end.

(** [__init__(self, filepath=None, root_dir=None)] *)
Definition init (fs : Fs.filesystem) (filepath root_dir : option str) : result t :=
  rbind
    (match nonempty filepath, nonempty root_dir with
     | Some p, Some r =>
         except_ValueError (rbind (OsPath.relpath (Fs.fs_cwd fs) p r) (λ x, Ok (Some x)))
                           (Ok filepath)
     | _, _ => Ok filepath
     end)
    (λ rel,
       Ok {| filepath := filepath;
             relpath := rel;
             filename := match nonempty filepath with Some p => basename p | None => [] end;
             count := 0; size := 0; disk_usage := 0;
             char_count := 0; char_count_no_space := 0; line_count := 0;
             word_counter := ∅; lines_lengths := []; extensions := ∅;
             skipped := Flag false; stats_summary := None;
             complexity_avg := Int 0; complexity_max := 0; functions_count := 0 |}).

(** [add(self, other)]: the object [self] after the call. *)
Definition add (self other : t) : t :=
  {| filepath := filepath self;
     relpath := relpath self;
     filename := filename self;
     count := count self + count other;
     size := size self + size other;
     disk_usage := disk_usage self + disk_usage other;
     char_count := char_count self + char_count other;
     char_count_no_space := char_count_no_space self + char_count_no_space other;
     line_count := line_count self + line_count other;
     word_counter := counter_update (word_counter self) (word_counter other);
     lines_lengths := lines_lengths self ++ lines_lengths other;
     extensions := counter_update (extensions self) (extensions other);
     skipped := if truthy (skipped other) then skip_incr (skipped self) else skipped self;
     stats_summary := stats_summary self;
     complexity_avg := complexity_avg self;
     complexity_max := if complexity_max other >? complexity_max self
                       then complexity_max other else complexity_max self;
     functions_count := functions_count self |}.

(** The dictionary built by [to_dict]. *)
Record dict := {
  d_path : option str;
  d_name : str;
  d_ext : str;
  d_size : Z;
  d_lines : Z;
  d_chars : Z;
  d_words : Z;
  d_avg_line_len : num;
  d_is_binary : skip;
  d_complexity_avg : num;
  d_complexity_max : Z
}.

(** [to_dict(self)] *)
Definition to_dict (rt : runtime) (self : t) : dict :=
  let computed :=
    HAS_LIZARD rt && negb (truthy (skipped self)) && (functions_count self >? 0) in
  {| d_path := relpath self;
     d_name := filename self;
     d_ext := match counter_first_key (extensions self) with Ok k => k | Raise _ => [] end;
     d_size := size self;
     d_lines := line_count self;
     d_chars := char_count self;
     d_words := counter_total (word_counter self);
     d_avg_line_len := match stats_summary self with Some s => s_mean s | None => Int 0 end;
     d_is_binary := skipped self;
     d_complexity_avg := if computed then complexity_avg self else Int 0;
     d_complexity_max := if computed then complexity_max self else 0 |}.

(** Assignments to single attributes. *)
Definition set_count (v : Z) (s : t) : t :=
  let '(Build_t a b c _ e f g h i j k l m n o p q) := s in
  Build_t a b c v e f g h i j k l m n o p q.
Definition set_size (v : Z) (s : t) : t :=
  let '(Build_t a b c d _ f g h i j k l m n o p q) := s in
  Build_t a b c d v f g h i j k l m n o p q.
Definition set_disk_usage (v : Z) (s : t) : t :=
  let '(Build_t a b c d e _ g h i j k l m n o p q) := s in
  Build_t a b c d e v g h i j k l m n o p q.
Definition set_char_count (v : Z) (s : t) : t :=
  let '(Build_t a b c d e f _ h i j k l m n o p q) := s in
  Build_t a b c d e f v h i j k l m n o p q.
Definition set_char_count_no_space (v : Z) (s : t) : t :=
  let '(Build_t a b c d e f g _ i j k l m n o p q) := s in
  Build_t a b c d e f g v i j k l m n o p q.
Definition set_line_count (v : Z) (s : t) : t :=
  let '(Build_t a b c d e f g h _ j k l m n o p q) := s in
  Build_t a b c d e f g h v j k l m n o p q.
Definition set_word_counter (v : Counter) (s : t) : t :=
  let '(Build_t a b c d e f g h i _ k l m n o p q) := s in
  Build_t a b c d e f g h i v k l m n o p q.
Definition set_lines_lengths (v : list Z) (s : t) : t :=
  let '(Build_t a b c d e f g h i j _ l m n o p q) := s in
  Build_t a b c d e f g h i j v l m n o p q.
Definition set_extensions (v : Counter) (s : t) : t :=
  let '(Build_t a b c d e f g h i j k _ m n o p q) := s in
  Build_t a b c d e f g h i j k v m n o p q.
Definition set_skipped (v : skip) (s : t) : t :=
  let '(Build_t a b c d e f g h i j k l _ n o p q) := s in
  Build_t a b c d e f g h i j k l v n o p q.
Definition set_stats_summary (v : option summary) (s : t) : t :=
  let '(Build_t a b c d e f g h i j k l m _ o p q) := s in
  Build_t a b c d e f g h i j k l m v o p q.
Definition set_complexity_avg (v : num) (s : t) : t :=
  let '(Build_t a b c d e f g h i j k l m n _ p q) := s in
  Build_t a b c d e f g h i j k l m n v p q.
Definition set_complexity_max (v : Z) (s : t) : t :=
  let '(Build_t a b c d e f g h i j k l m n o _ q) := s in
  Build_t a b c d e f g h i j k l m n o v q.
Definition set_functions_count (v : Z) (s : t) : t :=
  let '(Build_t a b c d e f g h i j k l m n o p _) := s in
  Build_t a b c d e f g h i j k l m n o p v.

End FileStats.

(** ** Utility functions *)

Import Py OsPath.

(** [try: body except Exception: handler] for code without a mutable
    object. *)
Definition try_result {A} (body : result A) (handler : exn → result A) : result A :=
  match body with
  | Ok a => Ok a
  | Raise e => if is_Exception e then handler e else Raise e
  end.

(** [b'\0' in chunk] *)
Definition has_null (chunk : Fs.bytes) : bool := existsb (Byte.eqb Byte.x00) chunk.

(** [is_binary_file(filepath)] *)
Definition is_binary_file (rt : runtime) (fs : Fs.filesystem) (filepath : str)
    : result bool :=
  let '(_, ext) := splitext filepath in
  if bool_decide (str_lower rt ext ∈ BINARY_EXTENSIONS) then Ok true
  else
    try_result
      (rbind (Fs.read_binary fs filepath 1024) (λ chunk,
         if has_null chunk then Ok true else Ok false))
      (λ _, Ok true).

(** [get_list_stats(num_list)] *)
Definition get_list_stats (rt : runtime) (num_list : list Z) : FileStats.summary :=
  if bool_decide (num_list = []) then
    {| FileStats.s_min := 0; FileStats.s_max := 0;
       FileStats.s_mean := Int 0; FileStats.s_median := Int 0 |}
  else
    let data := merge_sort Z.le num_list in
    {| FileStats.s_min := hd 0 data;
       FileStats.s_max := List.last data 0;
       FileStats.s_mean := round2 rt (statistics_mean rt data);
       FileStats.s_median := statistics_median rt data |}.

(** [analyze_complexity(filepath, stats_obj)], on the object [stats_obj] *)
Definition analyze_complexity (rt : runtime) (filepath : str) : M FileStats.t unit :=
  (let! stats_obj := get in
   match lizard_analyze_file rt with
   | None => ret tt
   | Some analyze_file =>
       if truthy (FileStats.skipped stats_obj) then ret tt
       else
         try_except
           (let! analysis := lift (analysis_result (analyze_file filepath)) in
            do! modify (FileStats.set_functions_count (len (function_list analysis))) in
            let! stats_obj := get in
            if FileStats.functions_count stats_obj >? 0 then
              do! modify (FileStats.set_complexity_avg
                            (round2 rt (average_cyclomatic_complexity analysis))) in
              let! m := lift (py_max (function_list analysis)) in
              modify (FileStats.set_complexity_max m)
            else ret tt)
           (λ _, ret tt)
   end)%py.

(** [math.ceil(a / b)] for a positive [b].  The source divides in floating
    point, which gives this value as long as [a] is below 2^53. *)
Definition ceil_div (a b : Z) : Z := - ((- a) / b).

(** The text measurements of [calculate_stats], once the content is read. *)
Definition measure_text (rt : runtime) (filepath : str) (content : str)
    : M FileStats.t unit :=
  (do! modify (FileStats.set_char_count (len content)) in
   do! modify (FileStats.set_char_count_no_space (len (delete_whitespace content))) in
   let lines := splitlines content in
   do! modify (FileStats.set_line_count (len lines)) in
   do! modify (FileStats.set_lines_lengths (len <$> lines)) in
   let words := split (punctuation_to_space content) in
   do! modify (λ stats, FileStats.set_word_counter
                          (counter_update_list (FileStats.word_counter stats) words) stats) in
   do! modify (λ stats, FileStats.set_stats_summary
                          (Some (get_list_stats rt (FileStats.lines_lengths stats))) stats) in
   analyze_complexity rt filepath)%py.

(** The body of the outer [try] of [calculate_stats]. *)
Definition measure (rt : runtime) (fs : Fs.filesystem) (filepath : str)
    : M FileStats.t unit :=
  (let! st := lift (Fs.stat fs filepath) in
   do! modify (FileStats.set_size (Fs.st_size st)) in
   do! match Fs.st_blocks st with
       | Some blocks => modify (FileStats.set_disk_usage (blocks * 512))
       | None => modify (λ stats, FileStats.set_disk_usage
                           (ceil_div (FileStats.size stats) BLOCK_SIZE * BLOCK_SIZE) stats)
       end in
   let '(_, ext) := splitext filepath in
   let key := if bool_decide (str_lower rt ext = []) then lit "no_ext" else str_lower rt ext in
   do! modify (λ stats, FileStats.set_extensions
                          (counter_incr key (FileStats.extensions stats)) stats) in
   let! binary := lift (is_binary_file rt fs filepath) in
   if binary then modify (FileStats.set_skipped (Flag true))
   else
     let! content :=
       try_except (let! c := lift (Fs.read_text fs filepath) in ret (Some c))
                  (λ _, do! modify (FileStats.set_skipped (Flag true)) in ret None) in
     match content with
     | None => ret tt
     | Some content => measure_text rt filepath content
     end)%py.

(** [calculate_stats(filepath, root_dir)] *)
Definition calculate_stats (rt : runtime) (fs : Fs.filesystem) (filepath root_dir : str)
    : result FileStats.t :=
  rbind (FileStats.init fs (Some filepath) (Some root_dir)) (λ stats,
    let body : M FileStats.t unit :=
      (do! modify (FileStats.set_count 1) in
       try_except (measure rt fs filepath)
                  (λ _, ret tt (* a message goes to the error stream *)))%py in
    match body stats with
    | (Ok _, stats) => Ok stats
    | (Raise e, _) => Raise e
    end).

(** ** The CSV row of [save_csv_reports] *)

Inductive cell :=
| CNone
| CStr (s : str)
| CInt (z : Z)
| CNum (x : num)
| CSkip (k : skip).

Definition csv_row (rt : runtime) (s : FileStats.t) : result (list cell) :=
  rbind (counter_first_key (FileStats.extensions s)) (λ ext,
    Ok [ match FileStats.relpath s with Some p => CStr p | None => CNone end;
         CStr (FileStats.filename s);
         CStr ext;
         CInt (FileStats.size s);
         CInt (FileStats.line_count s);
         CInt (FileStats.char_count s);
         if HAS_LIZARD rt then CNum (FileStats.complexity_avg s) else CStr (lit "-");
         if HAS_LIZARD rt then CInt (FileStats.complexity_max s) else CStr (lit "-");
         CSkip (FileStats.skipped s) ]).

(** ** The scan of [main] *)

Record scan := {
  total_stats : FileStats.t;
  all_file_details : list FileStats.t;
  folder_stats_map : gmap str FileStats.t
}.

(** [[d for d in dirs if not ignore_matcher.is_ignored(os.path.join(root, d))]] *)
Fixpoint keep_dirs (fs : Fs.filesystem) (ignore_matcher : IgnoreMatcher.t)
    (root : str) (dirs : list str) : result (list str) :=
  match dirs with
  | [] => Ok []
  | d :: dirs' =>
      rbind (IgnoreMatcher.is_ignored fs ignore_matcher (join root d)) (λ ignored,
        rbind (keep_dirs fs ignore_matcher root dirs') (λ kept,
          Ok (if ignored then kept else d :: kept)))
  end.

(** One iteration of [for file in files]. *)
Definition scan_file (rt : runtime) (fs : Fs.filesystem)
    (ignore_matcher : IgnoreMatcher.t) (target_dir_abs root file : str) (s : scan)
    : result scan :=
  let filepath := join root file in
  rbind (IgnoreMatcher.is_ignored fs ignore_matcher filepath) (λ ignored,
    if ignored then Ok s
    else
      rbind (calculate_stats rt fs filepath target_dir_abs) (λ file_stats,
        rbind (match folder_stats_map s !! root with
               | Some folder => Ok folder
               | None => FileStats.init fs None None
               end) (λ folder,
          Ok {| total_stats := FileStats.add (total_stats s) file_stats;
                all_file_details := all_file_details s ++ [file_stats];
                folder_stats_map :=
                  <[root := FileStats.add folder file_stats]> (folder_stats_map s) |}))).

Fixpoint scan_files (rt : runtime) (fs : Fs.filesystem)
    (ignore_matcher : IgnoreMatcher.t) (target_dir_abs root : str)
    (files : list str) (s : scan) : result scan :=
  match files with
  | [] => Ok s
  | file :: files' =>
      rbind (scan_file rt fs ignore_matcher target_dir_abs root file s)
            (scan_files rt fs ignore_matcher target_dir_abs root files')
  end.

(** The body of [for root, dirs, files in os.walk(target_dir_abs)]. *)
Definition scan_directory (rt : runtime) (fs : Fs.filesystem)
    (ignore_matcher : IgnoreMatcher.t) (target_dir_abs : str)
    (root : str) (dirs files : list str) (s : scan) : result (list str * scan) :=
  rbind (keep_dirs fs ignore_matcher root dirs) (λ dirs',
    rbind (scan_files rt fs ignore_matcher target_dir_abs root files s) (λ s',
      Ok (dirs', s'))).

(** [main()], from the resolution of the target directory to the end of the
    scan, as far as it reads the tree; [target_dir] is the command-line
    argument.  Argument parsing and the report writers are left out; the
    output directory and the console come with [main_io] below. *)
Definition main (rt : runtime) (fs : Fs.filesystem) (script_dir target_dir : str)
    : result scan :=
  let target_dir_abs := abspath (Fs.fs_cwd fs) target_dir in
  if negb (Fs.exists_ fs target_dir_abs) then Raise (SystemExit 1)
  else
    rbind (IgnoreMatcher.init fs script_dir target_dir_abs) (λ ignore_matcher,
      rbind (FileStats.init fs None None) (λ total,
        Fs.walk (scan_directory rt fs ignore_matcher target_dir_abs) fs target_dir_abs
          {| total_stats := total; all_file_details := []; folder_stats_map := ∅ |})).

(** ** [main] with its console and its output directory

    The same run of [main], from the resolution of the target directory to
    the end of the scan, with what it does besides reading the tree: it
    creates the output directory and it prints on the standard output.
    Neither is inside a [try] of [main].  Argument parsing is left out: the
    target and the [--output] option come as arguments, and so does the
    time stamp that names the default output directory. *)








(** ** Concrete worlds for the examples *)

Module Examples.

(** A run time for the examples.  Its [str_lower] is exact on ASCII text,
    its statistics are exact when the mean is an integer and the number of
    values is odd (they answer with a NaN otherwise), and no float is ever
    rounded; the examples stay within these bounds.  [lizard] is not
    installed. *)
Definition ascii_lower (s : str) : str :=
  (λ c, if in_range 65 90 c then (c + 32)%N else c) <$> s.

Definition nan : float := Float64 0x7FF8000000000000.

Definition sum_list (l : list Z) : Z := fold_left Z.add l 0.

Definition exact_mean (l : list Z) : num :=
  if bool_decide (l ≠ []) && (sum_list l mod len l =? 0)
  then Int (sum_list l / len l) else Float nan.

Definition exact_median (l : list Z) : num :=
  let n := length l in
  if Nat.odd n then Int (nth (n / 2) l 0)
  else Float nan (* an even number of values gives a float *).

Definition plain_runtime : runtime :=
  {| str_lower := ascii_lower;
     round2_float := λ x, x;
     statistics_mean := exact_mean;
     statistics_median := exact_median;
     lizard_analyze_file := None |}.

(** The same with a [lizard] that finds no function in any file. *)
Definition lizard_runtime : runtime :=
  {| str_lower := ascii_lower;
     round2_float := λ x, x;
     statistics_mean := exact_mean;
     statistics_median := exact_median;
     lizard_analyze_file :=
       Some (λ _, Some {| function_list := []; average_cyclomatic_complexity := Int 0 |}) |}.

Definition blit (s : string) : Fs.bytes := list_byte_of_string s.

Definition ok_stat (sz blocks : Z) : Fs.stat_result :=
  {| Fs.st_size := sz; Fs.st_blocks := Some blocks |}.

Definition newline : string := String (ascii_of_nat 10) EmptyString.

(** A text file, by its ASCII content and its lines. *)
Definition text_file (content : string) (lines : list string) : Fs.node :=
  Fs.File {| Fs.f_stat := ok_stat (Z.of_nat (String.length content)) 8;
             Fs.f_binary := Some (blit content);
             Fs.f_text := Some (lit content);
             Fs.f_lines := (lit <$> lines, None) |}.

(** A file that holds the eight bytes of the PNG signature: the first is
    not valid UTF-8, so that strict decoding fails and lenient decoding
    drops it. *)
Definition png_file : Fs.node :=
  Fs.File {| Fs.f_stat := ok_stat 8 8;
             Fs.f_binary := Some [Byte.x89; Byte.x50; Byte.x4e; Byte.x47;
                                  Byte.x0d; Byte.x0a; Byte.x1a; Byte.x0a];
             Fs.f_text := Some [80; 78; 71; 10; 26; 10]%N;
             Fs.f_lines := ([], Some Fs.CannotDecode) |}.

Definition dir (entries : list (string * Fs.node)) : Fs.node :=
  Fs.Dir (ok_stat 4096 8) (prod_map lit id <$> entries).

Definition a_txt : string := "a b c" ++ newline ++ "d e" ++ newline ++ "f".

(** The project of the end-to-end scenario, in [/proj]; the tool lives in
    [/tool], next to its global ignore file, which holds the pattern. *)
Definition project : Fs.node :=
  dir [("a.txt", text_file a_txt ["a b c" ++ newline; "d e" ++ newline; "f"]);
       ("img.png", png_file)]%string.

Definition scenario (global_ignore : list string) : Fs.filesystem :=
  {| Fs.fs_root :=
       dir [("tool", dir [(".analyzerignore",
                           text_file (String.concat "" global_ignore) global_ignore)]);
            ("proj", project)]%string;
     Fs.fs_cwd := lit "/" |}.

(** A project with one file, in which a word appears in two spellings. *)
Definition hello_fs : Fs.filesystem :=
  {| Fs.fs_root := dir [("proj", dir [("hello.txt",
                                       text_file "Hello, hello!" ["Hello, hello!"])])]%string;
     Fs.fs_cwd := lit "/" |}.

(** A project whose only file has a text extension and a null byte as its
    third byte. *)
Definition null_fs : Fs.filesystem :=
  {| Fs.fs_root :=
       dir [("proj", dir [("notes.txt",
               Fs.File {| Fs.f_stat := ok_stat 4 8;
                          Fs.f_binary := Some [Byte.x68; Byte.x69; Byte.x00; Byte.x0a];
                          Fs.f_text := Some [104; 105; 0; 10]%N;
                          Fs.f_lines := ([[104; 105; 0; 10]%N], None) |})])]%string;
     Fs.fs_cwd := lit "/" |}.

(** A project in which the directory [build] is present or not, seen by a
    process running in [cwd]; a matcher whose only pattern names the
    directory without a final separator, and one that names it with it. *)
Definition build_fs (present : bool) (cwd : string) : Fs.filesystem :=
  {| Fs.fs_root :=
       dir [("proj",
             dir (if present
                  then [("build", dir [("out.o", text_file "obj" ["obj"])])]
                  else []))]%string;
     Fs.fs_cwd := lit cwd |}.

Definition build_matcher : IgnoreMatcher.t :=
  {| IgnoreMatcher.root_dir := lit "/proj"; IgnoreMatcher.patterns := [lit "build"] |}.

Definition build_slash_matcher : IgnoreMatcher.t :=
  {| IgnoreMatcher.root_dir := lit "/proj"; IgnoreMatcher.patterns := [lit "build/"] |}.

Definition log_matcher : IgnoreMatcher.t :=
  {| IgnoreMatcher.root_dir := lit "/proj"; IgnoreMatcher.patterns := [lit "*.log"] |}.

(** A project with a source directory, a build directory that the
    project's own ignore file excludes, a symbolic link to the source
    directory and a directory that is closed to listing. *)
Definition src_dir : Fs.node :=
  dir [("main.py", text_file "x = 1" ["x = 1"])]%string.

Definition tree_project : Fs.node :=
  dir [(".analyzerignore", text_file ("build/" ++ newline) ["build/" ++ newline]);
       ("src", src_dir);
       ("build", dir [("out.txt", text_file "obj" ["obj"])]);
       ("link", Fs.Link src_dir);
       ("vault", Fs.Locked (ok_stat 4096 8)
                   [(lit "key.txt", text_file "k" ["k"])])]%string.

Definition tree_fs : Fs.filesystem :=
  {| Fs.fs_root := dir [("proj", tree_project)]%string; Fs.fs_cwd := lit "/" |}.






Definition tree_matcher : IgnoreMatcher.t :=
  {| IgnoreMatcher.root_dir := lit "/proj"; IgnoreMatcher.patterns := [lit "build/"] |}.

End Examples.

(** ** Notions used in the statements *)

(** The record after the first assignments of [calculate_stats], up to and
    including the extension table: [stats] is the record as constructed and
    [st] what [os.stat] returned. *)
Definition sized_record (rt : runtime) (filepath : str) (st : Fs.stat_result)
    (stats : FileStats.t) : FileStats.t :=
  let ext := str_lower rt (splitext filepath).2 in
  FileStats.set_extensions
    (counter_incr (if bool_decide (ext = []) then lit "no_ext" else ext)
                  (FileStats.extensions stats))
    (FileStats.set_disk_usage
       (match Fs.st_blocks st with
        | Some blocks => blocks * 512
        | None => ceil_div (Fs.st_size st) BLOCK_SIZE * BLOCK_SIZE
        end)
       (FileStats.set_size (Fs.st_size st) (FileStats.set_count 1 stats))).

(** The record as [FileStats(filepath, root_dir)] constructs it, [rel]
    being the relative path found. *)
Definition blank_record (filepath rel : option str) : FileStats.t :=
  FileStats.Build_t filepath rel
    (match FileStats.nonempty filepath with Some p => basename p | None => [] end)
    0 0 0 0 0 0 ∅ [] ∅ (Flag false) None (Int 0) 0 0.

(** The record after the text measurements on [content], before the
    complexity analysis. *)
Definition text_record (rt : runtime) (content : str) (stats : FileStats.t)
    : FileStats.t :=
  FileStats.set_stats_summary
    (Some (get_list_stats rt (len <$> splitlines content)))
    (FileStats.set_word_counter
       (counter_update_list (FileStats.word_counter stats)
          (split (punctuation_to_space content)))
       (FileStats.set_lines_lengths (len <$> splitlines content)
          (FileStats.set_line_count (len (splitlines content))
             (FileStats.set_char_count_no_space (len (delete_whitespace content))
                (FileStats.set_char_count (len content) stats))))).

(** The three complexity attributes, assigned. *)
Definition with_complexity (avg : num) (cmax fc : Z) (stats : FileStats.t)
    : FileStats.t :=
  FileStats.set_functions_count fc
    (FileStats.set_complexity_max cmax (FileStats.set_complexity_avg avg stats)).

(** A record as [calculate_stats] returns it. *)
Definition measured (r : FileStats.t) : Prop :=
  ∃ rt fs filepath root_dir, calculate_stats rt fs filepath root_dir = Ok r.

(** Agreement of two records on every attribute but [skipped]. *)
Definition agree_but_skipped (x y : FileStats.t) : Prop :=
  FileStats.filepath x = FileStats.filepath y
  ∧ FileStats.relpath x = FileStats.relpath y
  ∧ FileStats.filename x = FileStats.filename y
  ∧ FileStats.count x = FileStats.count y
  ∧ FileStats.size x = FileStats.size y
  ∧ FileStats.disk_usage x = FileStats.disk_usage y
  ∧ FileStats.char_count x = FileStats.char_count y
  ∧ FileStats.char_count_no_space x = FileStats.char_count_no_space y
  ∧ FileStats.line_count x = FileStats.line_count y
  ∧ FileStats.word_counter x = FileStats.word_counter y
  ∧ FileStats.lines_lengths x = FileStats.lines_lengths y
  ∧ FileStats.extensions x = FileStats.extensions y
  ∧ FileStats.stats_summary x = FileStats.stats_summary y
  ∧ FileStats.complexity_avg x = FileStats.complexity_avg y
  ∧ FileStats.complexity_max x = FileStats.complexity_max y
  ∧ FileStats.functions_count x = FileStats.functions_count y.

(** Folding records into a total, in the order of the list. *)
Definition merge_all (total : FileStats.t) (l : list FileStats.t) : FileStats.t :=
  fold_left FileStats.add l total.

(** A path component that is an ordinary name: not empty, without a
    separator, and neither [.] nor [..]. *)
Definition plain_name (w : str) : bool :=
  negb (bool_decide (w = [])) && negb (existsb (N.eqb sep) w)
  && negb (bool_decide (w = curdir)) && negb (bool_decide (w = pardir)).

(** The sum of an attribute over a list of records. *)
Definition total_of (f : FileStats.t → Z) (l : list FileStats.t) : Z :=
  foldr (λ r acc, f r + acc) 0 l.

(** The invariant between the line count and the line lengths. *)
Definition lines_consistent (r : FileStats.t) : Prop :=
  len (FileStats.lines_lengths r) = FileStats.line_count r.

(** No text was measured. *)
Definition no_text_metrics (r : FileStats.t) : Prop :=
  FileStats.char_count r = 0
  ∧ FileStats.char_count_no_space r = 0
  ∧ FileStats.line_count r = 0
  ∧ FileStats.lines_lengths r = []
  ∧ FileStats.word_counter r = ∅
  ∧ FileStats.stats_summary r = None.




(** The scan of [main], once the target directory is known to exist. *)
Definition scan_tree (rt : runtime) (fs : Fs.filesystem)
    (script_dir target_dir_abs : str) : result scan :=
  rbind (IgnoreMatcher.init fs script_dir target_dir_abs) (λ ignore_matcher,
    Fs.walk (scan_directory rt fs ignore_matcher target_dir_abs) fs target_dir_abs
      {| total_stats := blank_record None None; all_file_details := [];
         folder_stats_map := ∅ |}).

(** Number of occurrences of a word in a list. *)
Definition occurrences (w : str) (words : list str) : Z :=
  len (filter (λ x, x = w) words).

(** ** The report writers *)




(** [sorted(file_details_list, key=lambda x: x.line_count, reverse=True)]:
    the sort is stable, records with equal line counts keep their order. *)
Fixpoint insert_by_lines (x : FileStats.t) (sorted : list FileStats.t)
    : list FileStats.t :=
  match sorted with
  | [] => [x]
  | y :: rest =>
      if FileStats.line_count y >? FileStats.line_count x
      then y :: insert_by_lines x rest
      else x :: y :: rest
  end.

Definition sorted_by_lines (l : list FileStats.t) : list FileStats.t :=
  foldr insert_by_lines [] l.

(** [top_files_by_lines] of [save_html_report] *)
Definition top_files_by_lines (file_details_list : list FileStats.t)
    : list FileStats.t :=
  take 20 (sorted_by_lines file_details_list).

(** ** Further notions used in the statements *)

(** The lines of an ignore file that become patterns: stripped, neither
    blank nor comments. *)
Definition patterns_of_lines (lines : list str) : list str :=
  filter (λ line, line ≠ [] ∧ startswith line (lit "#") = false) (strip <$> lines).

(** What one pattern source contributes. *)
Definition source_patterns (fs : Fs.filesystem) (p : str) : list str :=
  if Fs.exists_ fs p then patterns_of_lines (Fs.read_lines fs p).1 else [].

(** The sum of an attribute over the folder subtotals. *)
Definition folder_total (f : FileStats.t → Z) (m : gmap str FileStats.t) : Z :=
  map_fold (λ _ v acc, f v + acc) 0 m.

(** The number of skipped records of a list. *)
Definition skipped_count (l : list FileStats.t) : Z :=
  len (filter (λ r, truthy (FileStats.skipped r) = true) l).

(** [sum(l)] *)
Definition sum_Z (l : list Z) : Z := foldr Z.add 0 l.

(** A character that stands for itself in a pattern and is not the
    separator. *)
Definition literal_char (c : N) : bool :=
  negb ((c =? 42)%N || (c =? 63)%N || (c =? 91)%N || (c =? 47)%N).

(** The scan before any file is measured. *)
Definition empty_scan : scan :=
  {| total_stats := blank_record None None;
     all_file_details := [];
     folder_stats_map := ∅ |}.

(** The scan after the record of a file of the directory [root] is folded
    in. *)
Definition record_file (s : scan) (root : str) (file_stats : FileStats.t) : scan :=
  {| total_stats := FileStats.add (total_stats s) file_stats;
     all_file_details := all_file_details s ++ [file_stats];
     folder_stats_map :=
       <[root := FileStats.add (default (blank_record None None)
                                        (folder_stats_map s !! root)) file_stats]>
         (folder_stats_map s) |}.

(** An attribute that [FileStats.add] sums and that is zero on a fresh
    record. *)
Definition additive (f : FileStats.t → Z) : Prop :=
  f (blank_record None None) = 0 ∧ ∀ a b, f (FileStats.add a b) = f a + f b.

(** The order of the report of the largest files: [a] comes before [b]
    when it has at least as many lines. *)
Definition more_lines (a b : FileStats.t) : Prop :=
  FileStats.line_count b ≤ FileStats.line_count a.

(** The descent of [os.walk] into the sub-directories that the loop body
    left in [dirs], in the order of the directory. *)
Fixpoint walk_entries {S : Type}
    (body : str → list str → list str → S → result (list str * S))
    (top : str) (dirs : list str) (es : list (str * Fs.node)) (s : S) : result S :=
  match es with
  | [] => Ok s
  | (name, n) :: es' =>
      if Fs.is_dir_node n && bool_decide (name ∈ dirs)
      then rbind (Fs.walk_node body (join top name) n s) (walk_entries body top dirs es')
      else walk_entries body top dirs es' s
  end.

(** [entered fs matcher top n root n']: starting from the directory [top],
    whose node is [n], the path [root], whose node is [n'], is reached by
    going down, one entry after the other, through entries that are
    directories proper (neither a symbolic link nor closed to listing) and
    that [is_ignored] rejects. *)
Inductive entered (fs : Fs.filesystem) (matcher : IgnoreMatcher.t)
    : str → Fs.node → str → Fs.node → Prop :=
| entered_here top n : entered fs matcher top n top n
| entered_below top st entries name st' entries' root n' :
    (name, Fs.Dir st' entries') ∈ entries →
    IgnoreMatcher.is_ignored fs matcher (join top name) = Ok false →
    entered fs matcher (join top name) (Fs.Dir st' entries') root n' →
    entered fs matcher top (Fs.Dir st entries) root n'.

(** * Properties *)

(** ** The monad and the file system *)

Lemma relpath_raises cwd path start e :
  relpath cwd path start = Raise e → e = ValueError.
Proof.
  unfold relpath. repeat case_bool_decide; congruence.
Qed.

Lemma os_error_raises {A} (o : option A) e : Fs.os_error o = Raise e → e = OSError.
Proof. destruct o; simpl; congruence. Qed.

Lemma stat_raises fs p e : Fs.stat fs p = Raise e → e = OSError.
Proof.
  unfold Fs.stat. destruct (Fs.resolve fs p) as [[d|st es| |t|st es]|]; congruence.
Qed.

Lemma read_text_raises fs p e : Fs.read_text fs p = Raise e → e = OSError.
Proof.
  unfold Fs.read_text. destruct (Fs.resolve fs p) as [[d|st es| |t|st es]|];
    eauto using os_error_raises; congruence.
Qed.

Lemma read_binary_raises fs p n e : Fs.read_binary fs p n = Raise e → e = OSError.
Proof.
  unfold Fs.read_binary. destruct (Fs.resolve fs p) as [[d|st es| |t|st es]|];
    try congruence.
  destruct (Fs.f_binary d); simpl; congruence.
Qed.

Lemma read_lines_failure fs p lines e :
  Fs.read_lines fs p = (lines, Some e) → is_Exception e = true.
Proof.
  unfold Fs.read_lines. destruct (Fs.resolve fs p) as [[d|st es| |t|st es]|].
  - destruct (Fs.f_lines d) as [l [[]|]]; simpl; intros [= _ <-]; done.
  - intros [= _ <-]; done.
  - intros [= _ <-]; done.
  - intros [= _ <-]; done.
  - intros [= _ <-]; done.
  - intros [= _ <-]; done.
Qed.

(** Induction on a node, with the property at hand for every entry of a
    directory. *)
Lemma node_ind_entries (P : Fs.node → Prop) :
  (∀ d, P (Fs.File d)) →
  (∀ st entries, Forall (λ e, P e.2) entries → P (Fs.Dir st entries)) →
  P Fs.Broken →
  (∀ target, P target → P (Fs.Link target)) →
  (∀ st entries, Forall (λ e, P e.2) entries → P (Fs.Locked st entries)) →
  ∀ n, P n.
Proof.
  intros HF HD HB HL HK. fix IH 1. intros [d|st entries| |target|st entries].
  - apply HF.
  - apply HD. revert entries. fix IHes 1. intros [|[name n] es]; constructor;
      [apply IH | apply IHes].
  - apply HB.
  - apply HL, IH.
  - apply HK. revert entries. fix IHes 1. intros [|[name n] es]; constructor;
      [apply IH | apply IHes].
Qed.

(** The walk of a directory: the loop body, then the descent. *)
Lemma walk_node_dir {S : Type}
    (body : str → list str → list str → S → result (list str * S))
    top st entries (s : S) :
  Fs.walk_node body top (Fs.Dir st entries) s
  = rbind (body top (filter (λ e, Fs.is_dir_node e.2 = true) entries).*1
                    (filter (λ e, Fs.is_dir_node e.2 = false) entries).*1 s)
          (λ '(dirs', s'), walk_entries body top dirs' entries s').
Proof.
  simpl. destruct (body top _ _ s) as [[dirs' s1]|e]; simpl; [|done].
  generalize s1. generalize entries as es.
  induction es as [|[name n] es IH]; intros s0; [done|]. simpl.
  destruct (Fs.is_dir_node n && bool_decide (name ∈ dirs')).
  - destruct (Fs.walk_node body (join top name) n s0); simpl; [apply IH | done].
  - apply IH.
Qed.

(** Only a directory proper is walked. *)
Lemma walk_node_not_dir {S : Type}
    (body : str → list str → list str → S → result (list str * S)) top n (s : S) :
  (∀ st entries, n ≠ Fs.Dir st entries) → Fs.walk_node body top n s = Ok s.
Proof. destruct n; intros Hn; try done. by destruct (Hn st entries). Qed.



(** ** [FileStats.__init__] never raises *)

Lemma init_returns fs p r : ∃ rel, FileStats.init fs p r = Ok (blank_record p rel).
Proof.
  unfold FileStats.init, blank_record.
  destruct (FileStats.nonempty p) as [q|]; [destruct (FileStats.nonempty r) as [r'|]|];
    try (eexists; reflexivity).
  destruct (OsPath.relpath (Fs.fs_cwd fs) q r') as [x|e] eqn:E; simpl.
  - eexists; reflexivity.
  - apply relpath_raises in E as ->. simpl. eexists; reflexivity.
Qed.

(** ** [is_binary_file] *)

Lemma is_binary_file_returns rt fs p : ∃ b, is_binary_file rt fs p = Ok b.
Proof.
  unfold is_binary_file. destruct (splitext p) as [root ext].
  case_bool_decide; [by eexists|].
  destruct (Fs.read_binary fs p 1024) as [chunk|e] eqn:E; simpl.
  - destruct (has_null chunk); by eexists.
  - apply read_binary_raises in E as ->. by eexists.
Qed.

Lemma is_binary_file_true rt fs p :
  is_binary_file rt fs p = Ok true
  ↔ str_lower rt (splitext p).2 ∈ BINARY_EXTENSIONS
    ∨ (∃ e, Fs.read_binary fs p 1024 = Raise e)
    ∨ (∃ chunk, Fs.read_binary fs p 1024 = Ok chunk ∧ has_null chunk = true).
Proof.
  unfold is_binary_file. destruct (splitext p) as [root ext]; simpl.
  case_bool_decide as Hext; [naive_solver|].
  destruct (Fs.read_binary fs p 1024) as [chunk|e] eqn:E; simpl.
  - destruct (has_null chunk) eqn:Hn.
    + split; [intros _|done]. right; right. by exists chunk.
    + split; [done|]. intros [?|[[e ?]|(c & [= <-] & ?)]]; congruence.
  - apply read_binary_raises in E as ->. simpl.
    split; [intros _|done]. right; left. by eexists.
Qed.

(** ** [analyze_complexity] touches the complexity attributes only *)

Lemma py_max_raises l e : py_max l = Raise e → e = ValueError.
Proof. destruct l; simpl; congruence. Qed.

Lemma analyze_complexity_frame rt p s :
  ∃ avg cmax fc, analyze_complexity rt p s = (Ok tt, with_complexity avg cmax fc s).
Proof.
  destruct s.
  unfold analyze_complexity, with_complexity, bind, get, try_except, lift, modify, ret.
  simpl.
  destruct (lizard_analyze_file rt) as [f|]; [|do 3 eexists; reflexivity].
  destruct (truthy skipped); [do 3 eexists; reflexivity|].
  destruct (f p) as [a|]; simpl; [|do 3 eexists; reflexivity].
  destruct (len (function_list a) >? 0); [|do 3 eexists; reflexivity].
  destruct (py_max (function_list a)) as [m|e] eqn:E; simpl;
    [|apply py_max_raises in E as ->]; do 3 eexists; reflexivity.
Qed.


(** ** The text measurements *)

Lemma measure_text_spec rt p content s :
  ∃ avg cmax fc,
    measure_text rt p content s
    = (Ok tt, with_complexity avg cmax fc (text_record rt content s)).
Proof.
  destruct s. unfold measure_text, text_record, bind, modify. simpl.
  match goal with |- context [analyze_complexity rt p ?s] =>
    destruct (analyze_complexity_frame rt p s) as (avg & cmax & fc & ->) end.
  by exists avg, cmax, fc.
Qed.


(** ** [calculate_stats], case by case *)

Section CalculateStats.
Variables (rt : runtime) (fs : Fs.filesystem) (filepath root_dir : str).
Variable stats : FileStats.t.
Hypothesis Hinit : FileStats.init fs (Some filepath) (Some root_dir) = Ok stats.

Lemma calculate_stats_stat_fails e :
  Fs.stat fs filepath = Raise e →
  calculate_stats rt fs filepath root_dir = Ok (FileStats.set_count 1 stats).
Proof using Hinit.
  intros E. unfold calculate_stats. rewrite Hinit. simpl.
  unfold bind, modify, try_except, measure, lift. simpl. rewrite E.
  by rewrite (stat_raises _ _ _ E).
Qed.

Lemma measure_after_stat st :
  Fs.stat fs filepath = Ok st →
  measure rt fs filepath (FileStats.set_count 1 stats)
  = (let s1 := sized_record rt filepath st stats in
     match is_binary_file rt fs filepath with
     | Ok true => (Ok tt, FileStats.set_skipped (Flag true) s1)
     | Ok false =>
         match Fs.read_text fs filepath with
         | Ok content => measure_text rt filepath content s1
         | Raise _ => (Ok tt, FileStats.set_skipped (Flag true) s1)
         end
     | Raise e => (Raise e, s1)
     end).
Proof.
  intros E. unfold measure, sized_record, bind, modify, try_except, lift, ret.
  rewrite E. destruct stats, st as [sz [blocks|]]; simpl;
    destruct (splitext filepath) as [root ext]; simpl;
    (destruct (is_binary_file rt fs filepath) as [[|]|]; [done| |done]);
    (destruct (Fs.read_text fs filepath) as [c|e] eqn:Er;
      [done | by rewrite (read_text_raises _ _ _ Er)]).
Qed.

Lemma calculate_stats_binary st :
  Fs.stat fs filepath = Ok st →
  is_binary_file rt fs filepath = Ok true →
  calculate_stats rt fs filepath root_dir
  = Ok (FileStats.set_skipped (Flag true) (sized_record rt filepath st stats)).
Proof using Hinit.
  intros E Hb. unfold calculate_stats. rewrite Hinit. simpl.
  unfold bind at 1. unfold modify at 1. unfold try_except.
  by rewrite (measure_after_stat st E), Hb.
Qed.

Lemma calculate_stats_unreadable st e :
  Fs.stat fs filepath = Ok st →
  is_binary_file rt fs filepath = Ok false →
  Fs.read_text fs filepath = Raise e →
  calculate_stats rt fs filepath root_dir
  = Ok (FileStats.set_skipped (Flag true) (sized_record rt filepath st stats)).
Proof using Hinit.
  intros E Hb Hr. unfold calculate_stats. rewrite Hinit. simpl.
  unfold bind at 1. unfold modify at 1. unfold try_except.
  by rewrite (measure_after_stat st E), Hb, Hr.
Qed.

Lemma calculate_stats_text st content :
  Fs.stat fs filepath = Ok st →
  is_binary_file rt fs filepath = Ok false →
  Fs.read_text fs filepath = Ok content →
  calculate_stats rt fs filepath root_dir
  = Ok (measure_text rt filepath content (sized_record rt filepath st stats)).2.
Proof using Hinit.
  intros E Hb Hr. unfold calculate_stats. rewrite Hinit. simpl.
  unfold bind at 1. unfold modify at 1. unfold try_except.
  rewrite (measure_after_stat st E), Hb, Hr. simpl.
  by destruct (measure_text_spec rt filepath content (sized_record rt filepath st stats))
    as (avg & cmax & fc & ->).
Qed.

End CalculateStats.

(** Every run of [calculate_stats] ends in one of three ways. *)
Lemma calculate_stats_cases rt fs filepath root_dir :
  ∃ rel,
    let stats := blank_record (Some filepath) rel in
    (∃ e, Fs.stat fs filepath = Raise e
          ∧ calculate_stats rt fs filepath root_dir = Ok (FileStats.set_count 1 stats))
    ∨ (∃ st, Fs.stat fs filepath = Ok st
             ∧ (is_binary_file rt fs filepath = Ok true
                ∨ is_binary_file rt fs filepath = Ok false
                  ∧ ∃ e, Fs.read_text fs filepath = Raise e)
             ∧ calculate_stats rt fs filepath root_dir
               = Ok (FileStats.set_skipped (Flag true)
                       (sized_record rt filepath st stats)))
    ∨ (∃ st content avg cmax fc,
         Fs.stat fs filepath = Ok st
         ∧ is_binary_file rt fs filepath = Ok false
         ∧ Fs.read_text fs filepath = Ok content
         ∧ measure_text rt filepath content (sized_record rt filepath st stats)
           = (Ok tt, with_complexity avg cmax fc
                       (text_record rt content (sized_record rt filepath st stats)))
         ∧ calculate_stats rt fs filepath root_dir
           = Ok (with_complexity avg cmax fc
                   (text_record rt content (sized_record rt filepath st stats)))).
Proof.
  destruct (init_returns fs (Some filepath) (Some root_dir)) as [rel Hinit].
  exists rel. intros stats.
  destruct (Fs.stat fs filepath) as [st|e] eqn:Hst.
  - right. destruct (is_binary_file_returns rt fs filepath) as [[|] Hb].
    + left. exists st. eauto using calculate_stats_binary.
    + destruct (Fs.read_text fs filepath) as [content|e] eqn:Hr.
      * right.
        destruct (measure_text_spec rt filepath content (sized_record rt filepath st stats))
          as (avg & cmax & fc & Hm).
        exists st, content, avg, cmax, fc. repeat split; try done.
        rewrite (calculate_stats_text rt fs filepath root_dir stats Hinit st content)
          by done.
        by rewrite Hm.
      * left. exists st. split; [done|]. split; [right; eauto|].
        eauto using calculate_stats_unreadable.
  - left. exists e. eauto using calculate_stats_stat_fails.
Qed.

(** ** Counters *)

Lemma counter_get_incr k c w :
  counter_get (counter_incr k c) w = counter_get c w + (if bool_decide (k = w) then 1 else 0).
Proof.
  unfold counter_incr, counter_get at 1 3. rewrite lookup_insert.
  case_decide; case_bool_decide; simplify_eq; simpl; [done | lia].
Qed.

Lemma occurrences_cons w x words :
  occurrences w (x :: words) = (if bool_decide (x = w) then 1 else 0) + occurrences w words.
Proof.
  unfold occurrences, len. rewrite filter_cons.
  case_decide; case_bool_decide; simplify_eq; simpl; lia.
Qed.

Lemma counter_get_update_list c words w :
  counter_get (counter_update_list c words) w = counter_get c w + occurrences w words.
Proof.
  unfold counter_update_list. revert c.
  induction words as [|x words IH]; intros c; simpl.
  - unfold occurrences, len. simpl. lia.
  - rewrite IH, counter_get_incr, occurrences_cons. lia.
Qed.

Lemma counter_update_list_keys c words w :
  is_Some (counter_update_list c words !! w) ↔ is_Some (c !! w) ∨ w ∈ words.
Proof.
  unfold counter_update_list. revert c.
  induction words as [|x words IH]; intros c; simpl.
  - rewrite elem_of_nil. tauto.
  - rewrite IH. unfold counter_incr. rewrite lookup_insert_is_Some', elem_of_cons.
    intuition auto.
Qed.

(** ** Splitting into words *)

Lemma split_from_words cur s w :
  (∀ c, c ∈ cur → isspace c = false) →
  w ∈ split_from cur s →
  w ≠ [] ∧ ∀ c, c ∈ w → isspace c = false ∧ (c ∈ cur ∨ c ∈ s).
Proof.
  revert cur. induction s as [|d s IH]; intros cur Hcur; simpl.
  - case_bool_decide; [by rewrite elem_of_nil|].
    rewrite list_elem_of_singleton. intros ->. naive_solver.
  - destruct (isspace d) eqn:Hd.
    + rewrite elem_of_app. intros [Hw|Hw].
      * case_bool_decide; [by apply elem_of_nil in Hw|].
        apply list_elem_of_singleton in Hw as ->. split; [done|]. auto.
      * apply IH in Hw as [? Hw]; [|by intros ? ?%elem_of_nil].
        split; [done|]. intros c Hc. destruct (Hw c Hc) as [? [?%elem_of_nil|?]]; [done|].
        split; [done|]. right. by apply elem_of_cons; right.
    + intros Hw. apply IH in Hw as [? Hw].
      * split; [done|]. intros c Hc. destruct (Hw c Hc) as [? [Hin|?]].
        -- split; [done|]. apply elem_of_app in Hin as [?|Hin].
           ++ by left.
           ++ apply list_elem_of_singleton in Hin as ->.
              right. apply elem_of_cons; by left.
        -- split; [done|]. right. apply elem_of_cons; by right.
      * intros c [?|Hin]%elem_of_app; [auto|].
        by apply list_elem_of_singleton in Hin as ->.
Qed.

Lemma punctuation_to_space_clean s c :
  c ∈ punctuation_to_space s → in_string_punctuation c = false.
Proof.
  unfold punctuation_to_space. intros (d & -> & _)%list_elem_of_fmap.
  destruct (in_string_punctuation d) eqn:E; done.
Qed.

Lemma has_null_spec chunk : has_null chunk = true ↔ Byte.x00 ∈ chunk.
Proof.
  unfold has_null. rewrite existsb_exists. setoid_rewrite <- list_elem_of_In. split.
  - intros (x & Hx & ->%Byte.byte_dec_bl). done.
  - intros H. exists Byte.x00. done.
Qed.

(** ** Claims about the per-file measurement *)

(** C10.  Every record that [calculate_stats] returns has as many line
    lengths as it counts lines, both being zero for a file that is
    skipped, and [FileStats.add] preserves the invariant: merging two
    records that satisfy it gives a record whose line count is the length
    of its concatenated list of line lengths. *)
Theorem line_count_matches_lines_lengths :
  (∀ rt fs filepath root_dir,
     ∃ r, calculate_stats rt fs filepath root_dir = Ok r
          ∧ lines_consistent r
          ∧ (truthy (FileStats.skipped r) = true →
             FileStats.line_count r = 0 ∧ FileStats.lines_lengths r = []))
  ∧ (∀ a b, lines_consistent a → lines_consistent b →
            lines_consistent (FileStats.add a b)
            ∧ FileStats.lines_lengths (FileStats.add a b)
              = FileStats.lines_lengths a ++ FileStats.lines_lengths b).
Proof.
  split.
  - intros rt fs filepath root_dir.
    destruct (calculate_stats_cases rt fs filepath root_dir)
      as [rel [(e & _ & ->) | [(st & _ & _ & ->)
                              | (st & content & avg & cmax & fc & _ & _ & _ & _ & ->)]]];
      eexists; (split; [reflexivity|]); unfold lines_consistent, len; simpl.
    + done.
    + done.
    + rewrite length_fmap. done.
  - intros a b Ha Hb. unfold lines_consistent, len in *. simpl.
    rewrite length_app. split; [lia | done].
Qed.

Lemma line_count_matches_lines_lengths_witness :
  ∃ a b,
    calculate_stats Examples.plain_runtime (Examples.scenario [])
      (lit "/proj/a.txt") (lit "/proj") = Ok a
    ∧ calculate_stats Examples.plain_runtime (Examples.scenario [])
        (lit "/proj/img.png") (lit "/proj") = Ok b
    ∧ FileStats.line_count a = 3
    ∧ FileStats.lines_lengths a = [5; 3; 1]
    ∧ truthy (FileStats.skipped b) = true
    ∧ lines_consistent (FileStats.add a b)
    ∧ lines_consistent (FileStats.add a a)
    ∧ FileStats.lines_lengths (FileStats.add a a) = [5; 3; 1; 5; 3; 1]
    ∧ FileStats.line_count (FileStats.add a a) = 6.
Proof.
  destruct (proj1 line_count_matches_lines_lengths Examples.plain_runtime
              (Examples.scenario []) (lit "/proj/a.txt") (lit "/proj"))
    as (a & Ha & Hca & _).
  destruct (proj1 line_count_matches_lines_lengths Examples.plain_runtime
              (Examples.scenario []) (lit "/proj/img.png") (lit "/proj"))
    as (b & Hb & Hcb & Hskip).
  exists a, b. split; [done|]. split; [done|].
  destruct (proj2 line_count_matches_lines_lengths a b Hca Hcb) as [Hab _].
  destruct (proj2 line_count_matches_lines_lengths a a Hca Hca) as [Haa Hll].
  assert (Hla : FileStats.line_count a = 3 ∧ FileStats.lines_lengths a = [5; 3; 1]).
  { vm_compute in Ha. injection Ha as <-. by split. }
  assert (Hsb : truthy (FileStats.skipped b) = true).
  { vm_compute in Hb. by injection Hb as <-. }
  destruct Hla as [Hl3 Hl]. repeat split; try done.
  - by rewrite Hll, Hl.
  - unfold lines_consistent in Haa. rewrite <- Haa, Hll, Hl. reflexivity.
Defined.

(** C7.  A file whose first 1024 bytes contain a null byte is classified
    binary whatever its extension, and the record measured for it is
    marked skipped and has no text metrics.  In general a file is
    classified binary exactly when its lower-cased extension is in the
    known-binary set, or it cannot be opened and read in binary mode, or
    its first 1024 bytes contain a null byte; and every file that is
    classified binary and that [os.stat] can examine is marked skipped and
    gets no text metrics. *)
Theorem binary_classification rt fs filepath :
  (∀ d content,
     Fs.resolve fs filepath = Some (Fs.File d) →
     Fs.f_binary d = Some content →
     Byte.x00 ∈ take 1024 content →
     is_binary_file rt fs filepath = Ok true
     ∧ ∀ root_dir,
         ∃ r, calculate_stats rt fs filepath root_dir = Ok r
              ∧ FileStats.skipped r = Flag true
              ∧ no_text_metrics r)
  ∧ (is_binary_file rt fs filepath = Ok true
     ↔ str_lower rt (splitext filepath).2 ∈ BINARY_EXTENSIONS
       ∨ (∃ e, Fs.read_binary fs filepath 1024 = Raise e)
       ∨ (∃ chunk, Fs.read_binary fs filepath 1024 = Ok chunk ∧ Byte.x00 ∈ chunk))
  ∧ (is_binary_file rt fs filepath = Ok true ∨ is_binary_file rt fs filepath = Ok false)
  ∧ (∀ root_dir st,
       Fs.stat fs filepath = Ok st →
       is_binary_file rt fs filepath = Ok true →
       ∃ r, calculate_stats rt fs filepath root_dir = Ok r
            ∧ FileStats.skipped r = Flag true
            ∧ no_text_metrics r
            ∧ FileStats.size r = Fs.st_size st).
Proof.
  assert (Hiff : is_binary_file rt fs filepath = Ok true
     ↔ str_lower rt (splitext filepath).2 ∈ BINARY_EXTENSIONS
       ∨ (∃ e, Fs.read_binary fs filepath 1024 = Raise e)
       ∨ (∃ chunk, Fs.read_binary fs filepath 1024 = Ok chunk ∧ Byte.x00 ∈ chunk)).
  { rewrite is_binary_file_true. by setoid_rewrite has_null_spec. }
  assert (Hstats : ∀ root_dir st,
    Fs.stat fs filepath = Ok st →
    is_binary_file rt fs filepath = Ok true →
    ∃ r, calculate_stats rt fs filepath root_dir = Ok r
         ∧ FileStats.skipped r = Flag true
         ∧ no_text_metrics r
         ∧ FileStats.size r = Fs.st_size st).
  { intros root_dir st Hst Hb.
    destruct (init_returns fs (Some filepath) (Some root_dir)) as [rel Hinit].
    eexists. split; [by eapply calculate_stats_binary|].
    unfold no_text_metrics. simpl. done. }
  split; [|split; [done|split; [|done]]].
  - intros d content Hres Hbin Hnull.
    assert (Hb : is_binary_file rt fs filepath = Ok true).
    { apply Hiff. right; right. exists (take 1024 content). split; [|done].
      unfold Fs.read_binary. by rewrite Hres, Hbin. }
    split; [done|]. intros root_dir.
    destruct (Hstats root_dir (Fs.f_stat d)) as (r & ? & ? & ? & _); [|done|by exists r].
    unfold Fs.stat. by rewrite Hres.
  - destruct (is_binary_file_returns rt fs filepath) as [[|] ->]; auto.
Qed.

Lemma binary_classification_witness :
  is_binary_file Examples.plain_runtime Examples.null_fs (lit "/proj/notes.txt") = Ok true
  ∧ ∃ r, calculate_stats Examples.plain_runtime Examples.null_fs
           (lit "/proj/notes.txt") (lit "/proj") = Ok r
         ∧ FileStats.skipped r = Flag true
         ∧ no_text_metrics r
         ∧ FileStats.size r = 4.
Proof.
  pose proof (binary_classification Examples.plain_runtime Examples.null_fs
                (lit "/proj/notes.txt")) as (Hnull & _ & _ & Hstats).
  split.
  - eapply Hnull; [vm_compute; reflexivity | reflexivity |].
    apply list_elem_of_lookup. by exists 2%nat.
  - apply (Hstats (lit "/proj") {| Fs.st_size := 4; Fs.st_blocks := Some 8 |});
      vm_compute; reflexivity.
Defined.

(** C5 (as amended).  For a file that is measured as text, the word table
    counts the words obtained by replacing each punctuation character by a
    space and splitting on whitespace: a key is a non-empty run of
    characters free of whitespace and punctuation, and its count is the
    number of words spelled exactly so, letter case included. *)
Theorem word_table_of_text rt fs filepath root_dir st content :
  Fs.stat fs filepath = Ok st →
  is_binary_file rt fs filepath = Ok false →
  Fs.read_text fs filepath = Ok content →
  ∃ r, calculate_stats rt fs filepath root_dir = Ok r
       ∧ let words := split (punctuation_to_space content) in
         FileStats.word_counter r = counter_update_list ∅ words
         ∧ (∀ w, counter_get (FileStats.word_counter r) w = occurrences w words)
         ∧ (∀ w, is_Some (FileStats.word_counter r !! w) ↔ w ∈ words)
         ∧ (∀ w, w ∈ words →
                 w ≠ [] ∧ ∀ c, c ∈ w → isspace c = false ∧ in_string_punctuation c = false).
Proof.
  intros Hst Hb Hr.
  destruct (init_returns fs (Some filepath) (Some root_dir)) as [rel Hinit].
  rewrite (calculate_stats_text rt fs filepath root_dir _ Hinit st content) by done.
  destruct (measure_text_spec rt filepath content
              (sized_record rt filepath st (blank_record (Some filepath) rel)))
    as (avg & cmax & fc & ->).
  eexists. split; [reflexivity|]. simpl. split; [done|]. split; [|split].
  - intros w. rewrite counter_get_update_list. unfold counter_get.
    rewrite lookup_empty. simpl. lia.
  - intros w. rewrite counter_update_list_keys, lookup_empty.
    split; [intros [[? [=]]|?]; done | auto].
  - intros w Hw. apply split_from_words in Hw as [Hne Hw]; [|by intros ? ?%elem_of_nil].
    split; [done|]. intros c Hc. destruct (Hw c Hc) as [Hs [?%elem_of_nil|Hin]]; [done|].
    split; [done|]. by eapply punctuation_to_space_clean.
Qed.

Lemma word_table_of_text_witness :
  ∃ r, calculate_stats Examples.plain_runtime Examples.hello_fs
         (lit "/proj/hello.txt") (lit "/proj") = Ok r
       ∧ let words := split (punctuation_to_space (lit "Hello, hello!")) in
         FileStats.word_counter r = counter_update_list ∅ words
         ∧ (∀ w, counter_get (FileStats.word_counter r) w = occurrences w words)
         ∧ (∀ w, is_Some (FileStats.word_counter r !! w) ↔ w ∈ words)
         ∧ (∀ w, w ∈ words →
                 w ≠ [] ∧ ∀ c, c ∈ w → isspace c = false ∧ in_string_punctuation c = false).
Proof.
  apply (word_table_of_text Examples.plain_runtime Examples.hello_fs
           (lit "/proj/hello.txt") (lit "/proj")
           {| Fs.st_size := 13; Fs.st_blocks := Some 8 |} (lit "Hello, hello!"));
    vm_compute; reflexivity.
Defined.

(** C5, the claim as stated fails: in a file that reads "Hello, hello!" the
    two spellings of the word are two keys of the table, each counted
    once. *)
Lemma letter_case_is_kept :
  ∃ r, calculate_stats Examples.plain_runtime Examples.hello_fs
         (lit "/proj/hello.txt") (lit "/proj") = Ok r
       ∧ FileStats.skipped r = Flag false
       ∧ FileStats.word_counter r !! lit "Hello" = Some 1
       ∧ FileStats.word_counter r !! lit "hello" = Some 1
       ∧ lit "Hello" ≠ lit "hello".
Proof.
  eexists. split; [vm_compute; reflexivity|].
  split; [reflexivity|]. split; [reflexivity|]. split; [reflexivity|]. discriminate.
Qed.

(** ** Claims about [FileStats.add] *)

Lemma counter_update_assoc (a b c : Counter) :
  counter_update (counter_update a b) c = counter_update a (counter_update b c).
Proof.
  apply map_eq. intros k. unfold counter_update. rewrite !lookup_union_with.
  destruct (a !! k), (b !! k), (c !! k); simpl; try done. f_equal. lia.
Qed.

Lemma max_assoc (a b c : Z) :
  (if c >? (if b >? a then b else a) then c else if b >? a then b else a)
  = (if (if c >? b then c else b) >? a then if c >? b then c else b else a).
Proof.
  destruct (Z.gtb_spec b a), (Z.gtb_spec c b);
    repeat match goal with |- context [?x >? ?y] => destruct (Z.gtb_spec x y) end; lia.
Qed.

Lemma add_assoc_but_skipped A B C :
  agree_but_skipped (FileStats.add (FileStats.add A B) C)
                    (FileStats.add A (FileStats.add B C)).
Proof.
  unfold agree_but_skipped. simpl.
  rewrite !counter_update_assoc, max_assoc, <- !Z.add_assoc, <- app_assoc. done.
Qed.

Lemma measured_skipped_flag r : measured r → ∃ b, FileStats.skipped r = Flag b.
Proof.
  intros (rt & fs & filepath & root_dir & H).
  destruct (calculate_stats_cases rt fs filepath root_dir)
    as [rel [(e & _ & E) | [(st & _ & _ & E)
                           | (st & content & avg & cmax & fc & _ & _ & _ & _ & E)]]];
    rewrite E in H; injection H as <-; by eexists.
Qed.

(** The two ways of merging three records count the skipped ones
    differently. *)
Lemma add_skipped_left A B C :
  skip_value (FileStats.skipped (FileStats.add (FileStats.add A B) C))
  = skip_value (FileStats.skipped A)
    + Z.b2z (truthy (FileStats.skipped B)) + Z.b2z (truthy (FileStats.skipped C)).
Proof.
  simpl. destruct (truthy (FileStats.skipped B)), (truthy (FileStats.skipped C));
    simpl; lia.
Qed.

Lemma add_skipped_right A B C b c :
  FileStats.skipped B = Flag b → FileStats.skipped C = Flag c →
  skip_value (FileStats.skipped (FileStats.add A (FileStats.add B C)))
  = skip_value (FileStats.skipped A) + Z.b2z (b || c).
Proof.
  intros HB HC. simpl. rewrite HB, HC. destruct b, c; simpl; lia.
Qed.

(** C1 (as amended).  For three records returned by [calculate_stats],
    merging as (A + B) + C and as A + (B + C) gives records that agree on
    every attribute other than [skipped]; they agree on [skipped] as well,
    and so are equal, exactly when B and C are not both skipped. *)
Theorem add_associative_up_to_skipped A B C :
  measured A → measured B → measured C →
  agree_but_skipped (FileStats.add (FileStats.add A B) C)
                    (FileStats.add A (FileStats.add B C))
  ∧ (FileStats.skipped (FileStats.add (FileStats.add A B) C)
       = FileStats.skipped (FileStats.add A (FileStats.add B C))
     ↔ ¬ (FileStats.skipped B = Flag true ∧ FileStats.skipped C = Flag true))
  ∧ (FileStats.add (FileStats.add A B) C = FileStats.add A (FileStats.add B C)
     ↔ ¬ (FileStats.skipped B = Flag true ∧ FileStats.skipped C = Flag true)).
Proof.
  intros HA HB HC.
  destruct (measured_skipped_flag _ HB) as [b Hb], (measured_skipped_flag _ HC) as [c Hc].
  pose proof (add_assoc_but_skipped A B C) as Hagree.
  assert (Hskip : FileStats.skipped (FileStats.add (FileStats.add A B) C)
                    = FileStats.skipped (FileStats.add A (FileStats.add B C))
                  ↔ ¬ (FileStats.skipped B = Flag true ∧ FileStats.skipped C = Flag true)).
  { rewrite Hb, Hc. simpl. rewrite Hb, Hc. unfold skip_incr.
    destruct b, c; simpl; split; try done; try (intros H [??]; done).
    - intros [=]. lia.
    - intros H. exfalso. by apply H. }
  split; [done|]. split; [done|]. rewrite <- Hskip. split; [by intros ->|].
  intros Hs. unfold agree_but_skipped in Hagree.
  destruct (FileStats.add (FileStats.add A B) C), (FileStats.add A (FileStats.add B C)).
  simpl in *. destruct_and!. by simplify_eq.
Qed.

(** ** Totals *)

Lemma total_of_perm f l1 l2 : l1 ≡ₚ l2 → total_of f l1 = total_of f l2.
Proof.
  unfold total_of. induction 1; simpl; lia.
Qed.

Lemma merge_all_total f total l :
  (∀ a b, f (FileStats.add a b) = f a + f b) →
  f (merge_all total l) = f total + total_of f l.
Proof.
  intros Hf. unfold merge_all, total_of. revert total.
  induction l as [|r l IH]; intros total; simpl; [lia|].
  rewrite IH, Hf. lia.
Qed.

(** C6.  Folding a list of records into a fresh total gives the same line,
    character and size totals as folding any permutation of it (and the
    same file count, disk usage and count of non-blank characters). *)
Theorem totals_independent_of_order fs total l1 l2 :
  FileStats.init fs None None = Ok total →
  l1 ≡ₚ l2 →
  FileStats.line_count (merge_all total l1) = FileStats.line_count (merge_all total l2)
  ∧ FileStats.char_count (merge_all total l1) = FileStats.char_count (merge_all total l2)
  ∧ FileStats.size (merge_all total l1) = FileStats.size (merge_all total l2)
  ∧ FileStats.count (merge_all total l1) = FileStats.count (merge_all total l2)
  ∧ FileStats.disk_usage (merge_all total l1) = FileStats.disk_usage (merge_all total l2)
  ∧ FileStats.char_count_no_space (merge_all total l1)
    = FileStats.char_count_no_space (merge_all total l2).
Proof.
  intros _ Hperm.
  repeat split;
    match goal with |- ?f (merge_all _ _) = _ =>
      rewrite !(merge_all_total f) by done; f_equal; by apply total_of_perm
    end.
Qed.

(** ** Paths *)

Lemma split_on_nonempty c s : split_on c s ≠ [].
Proof.
  destruct s as [|d s]; simpl; [done|].
  destruct (d =? c)%N; [done|]. by destruct (split_on c s).
Qed.

Lemma split_on_app c a b : split_on c (a ++ c :: b) = split_on c a ++ split_on c b.
Proof.
  induction a as [|d a IH]; simpl.
  - by rewrite N.eqb_refl.
  - destruct (d =? c)%N; [by rewrite IH|].
    rewrite IH. pose proof (split_on_nonempty c a). by destruct (split_on c a).
Qed.

Lemma split_on_no_sep c s w : w ∈ split_on c s → c ∉ w.
Proof.
  revert w. induction s as [|d s IH]; simpl; intros w.
  - intros ->%list_elem_of_singleton. by apply not_elem_of_nil.
  - destruct (d =? c)%N eqn:E.
    + intros [->|?]%elem_of_cons; [by apply not_elem_of_nil | auto].
    + apply N.eqb_neq in E. destruct (split_on c s) as [|x xs] eqn:Es.
      * intros ->%list_elem_of_singleton.
        intros [->|?%elem_of_nil]%elem_of_cons; done.
      * intros [->|?]%elem_of_cons.
        -- intros [->|?]%elem_of_cons; [done|].
           by apply (IH x); [apply elem_of_cons; left|].
        -- apply IH. apply elem_of_cons; by right.
Qed.

Lemma split_on_plain c w : c ∉ w → split_on c w = [w].
Proof.
  induction w as [|d w IH]; simpl; [done|]. intros H.
  apply not_elem_of_cons in H as [Hd Hw].
  destruct (d =? c)%N eqn:E; [apply N.eqb_eq in E; congruence|].
  by rewrite IH.
Qed.

Lemma split_on_join c l :
  Forall (λ w, c ∉ w) l → l ≠ [] → split_on c (join_with c l) = l.
Proof.
  induction 1 as [|x l Hx Hl IH]; [done|]. intros _.
  destruct l as [|y l]; simpl.
  - by apply split_on_plain.
  - rewrite split_on_app, split_on_plain by done. simpl. f_equal. by apply IH.
Qed.

Lemma nonempty_comps_sep s : nonempty_comps (sep :: s) = nonempty_comps s.
Proof.
  unfold nonempty_comps. simpl. by rewrite filter_cons_False by (intros H; by apply H).
Qed.

Lemma nonempty_comps_join l :
  Forall (λ w, w ≠ [] ∧ sep ∉ w) l → nonempty_comps (join_with sep l) = l.
Proof.
  intros H. unfold nonempty_comps. destruct (decide (l = [])) as [->|Hne].
  - simpl. by rewrite filter_cons_False by (intros H'; by apply H').
  - rewrite split_on_join; [|by eapply Forall_impl; [done|]; intros ? [? ?] | done].
    clear Hne. induction H as [|x l [Hx _] _ IH]; [done|].
    by rewrite filter_cons_True, IH.
Qed.

(** *** [normpath] on absolute paths *)

Lemma Forall_removelast {A} (P : A → Prop) (l : list A) :
  Forall P l → Forall P (removelast l).
Proof.
  induction 1 as [|x l Hx Hl IH]; simpl; [done|]. destruct l; [done|]. by constructor.
Qed.

Lemma normpath_step_good k acc comp :
  Forall (λ w, w ≠ [] ∧ sep ∉ w) acc → sep ∉ comp →
  Forall (λ w, w ≠ [] ∧ sep ∉ w) (normpath_step k acc comp).
Proof.
  intros Hacc Hc. unfold normpath_step.
  case_bool_decide as H1; simpl; [done|].
  destruct (bool_decide (comp = curdir)); simpl; [done|].
  match goal with |- context [if ?b then _ else _] => destruct b end.
  - apply Forall_app. split; [done|]. by repeat constructor.
  - by apply Forall_removelast.
Qed.

Lemma fold_normpath_step_good k comps acc :
  Forall (λ w, w ≠ [] ∧ sep ∉ w) acc → Forall (λ w, sep ∉ w) comps →
  Forall (λ w, w ≠ [] ∧ sep ∉ w) (fold_left (normpath_step k) comps acc).
Proof.
  intros Hacc Hc. revert acc Hacc.
  induction Hc as [|c comps Hc _ IH]; intros acc Hacc; simpl; [done|].
  apply IH. by apply normpath_step_good.
Qed.

Lemma norm_comps_good p : Forall (λ w, w ≠ [] ∧ sep ∉ w) (norm_comps p).
Proof.
  apply fold_normpath_step_good; [done|].
  apply Forall_forall. intros w. apply split_on_no_sep.
Qed.

Lemma initial_slashes_abs p : isabs p = true → initial_slashes p ≠ 0%nat.
Proof.
  unfold isabs, initial_slashes. intros ->.
  by destruct (startswith p [sep; sep] && negb (startswith p [sep; sep; sep])).
Qed.

Lemma normpath_step_abs k k' acc comp :
  k ≠ 0%nat → k' ≠ 0%nat → normpath_step k acc comp = normpath_step k' acc comp.
Proof.
  intros Hk Hk'. unfold normpath_step.
  by rewrite !(bool_decide_eq_false_2 (_ = 0%nat)).
Qed.

Lemma fold_normpath_step_abs k k' comps acc :
  k ≠ 0%nat → k' ≠ 0%nat →
  fold_left (normpath_step k) comps acc = fold_left (normpath_step k') comps acc.
Proof.
  intros Hk Hk'. revert acc. induction comps as [|c comps IH]; intros acc; simpl; [done|].
  by rewrite IH, (normpath_step_abs k k').
Qed.

Lemma isabs_nonempty p : isabs p = true → p ≠ [].
Proof. by destruct p. Qed.

(** The components of an absolute path, once normalised. *)
Lemma nonempty_comps_normpath p :
  isabs p = true → nonempty_comps (normpath p) = norm_comps p.
Proof.
  intros Habs. unfold normpath.
  rewrite bool_decide_eq_false_2 by by apply isabs_nonempty.
  pose proof (initial_slashes_abs p Habs) as Hk.
  destruct (initial_slashes p) as [|k] eqn:Ek; [done|]. simpl.
  rewrite nonempty_comps_sep.
  assert (Hrep : ∀ n s, nonempty_comps (replicate n sep ++ s) = nonempty_comps s).
  { induction n as [|n IH]; intros s; simpl; [done|]. by rewrite nonempty_comps_sep. }
  rewrite Hrep. apply nonempty_comps_join, norm_comps_good.
Qed.

(** *** A path below an absolute directory *)

Lemma plain_name_spec w :
  plain_name w = true → w ≠ [] ∧ (sep ∉ w) ∧ w ≠ curdir ∧ w ≠ pardir.
Proof.
  unfold plain_name. rewrite !andb_true_iff, !negb_true_iff, !bool_decide_eq_false.
  intros [[[? Hs] ?] ?]. repeat split; try done.
  intros Hin. apply not_true_iff_false in Hs. apply Hs, existsb_exists.
  exists sep. split; [by apply list_elem_of_In | apply N.eqb_refl].
Qed.

Lemma fold_normpath_step_plain k comps acc :
  forallb plain_name comps = true →
  fold_left (normpath_step k) comps acc = acc ++ comps.
Proof.
  revert acc. induction comps as [|c comps IH]; intros acc; simpl.
  - by rewrite app_nil_r.
  - intros [Hc Hcs]%andb_true_iff. rewrite IH by done.
    apply plain_name_spec in Hc as (? & _ & ? & ?).
    unfold normpath_step.
    rewrite (bool_decide_eq_false_2 (c = [])), (bool_decide_eq_false_2 (c = curdir)),
      (bool_decide_eq_true_2 (c ≠ pardir)) by done.
    simpl. by rewrite <- app_assoc.
Qed.

Lemma startswith_sep_cons d s : startswith (d :: s) [sep] = (sep =? d)%N.
Proof. cbn [startswith]. destruct s; apply andb_true_r. Qed.

Lemma join_with_plain_head comps :
  forallb plain_name comps = true → startswith (join_with sep comps) [sep] = false.
Proof.
  destruct comps as [|c comps]; [done|]. simpl.
  intros [Hc _]%andb_true_iff. apply plain_name_spec in Hc as (Hne & Hsep & _).
  destruct c as [|d c]; [done|].
  assert (d ≠ sep) by (intros ->; apply Hsep, elem_of_cons; by left).
  destruct comps; cbn [join_with app]; rewrite startswith_sep_cons; by apply N.eqb_neq.
Qed.

Lemma split_on_join_plain comps :
  forallb plain_name comps = true → comps ≠ [] →
  split_on sep (join_with sep comps) = comps.
Proof.
  intros H Hne. apply split_on_join; [|done].
  apply Forall_forall. intros w Hw.
  rewrite forallb_forall in H. apply list_elem_of_In, H, plain_name_spec in Hw.
  tauto.
Qed.

Lemma endswith_sep p : endswith p [sep] = true → ∃ q, p = q ++ [sep].
Proof.
  unfold endswith. change (reverse [sep]) with [sep].
  destruct (reverse p) as [|d r] eqn:E; [done|].
  rewrite startswith_sep_cons. intros <-%N.eqb_eq.
  exists (reverse r). by rewrite <- (reverse_involutive p), E, reverse_cons.
Qed.

Lemma startswith_app_sep p q : isabs p = true → isabs (p ++ q) = true.
Proof.
  destruct p as [|d p]; [done|]. unfold isabs.
  by rewrite <- app_comm_cons, !startswith_sep_cons.
Qed.

Section Below.
Variables (root : str) (comps : list str).
Hypothesis Habs : isabs root = true.
Hypothesis Hplain : forallb plain_name comps = true.
Hypothesis Hne : comps ≠ [].

Lemma join_below_abs : isabs (join root (join_with sep comps)) = true.
Proof using Habs Hplain.
  unfold join. rewrite join_with_plain_head by done.
  destruct (bool_decide (root = []) || endswith root [sep]);
    by apply startswith_app_sep.
Qed.

Lemma norm_comps_below :
  norm_comps (join root (join_with sep comps)) = norm_comps root ++ comps.
Proof using Habs Hplain Hne.
  unfold norm_comps.
  rewrite (fold_normpath_step_abs _ 1), (fold_normpath_step_abs (initial_slashes root) 1)
    by (try apply initial_slashes_abs; auto using join_below_abs).
  unfold join. rewrite join_with_plain_head by done.
  rewrite (bool_decide_eq_false_2 (root = [])) by by apply isabs_nonempty.
  simpl. destruct (endswith root [sep]) eqn:E.
  - apply endswith_sep in E as [q ->]. rewrite <- app_assoc. simpl.
    rewrite !split_on_app, !fold_left_app, split_on_join_plain by done. simpl.
    by rewrite fold_normpath_step_plain.
  - rewrite split_on_app, fold_left_app, split_on_join_plain by done.
    by rewrite fold_normpath_step_plain.
Qed.

Lemma commonprefix_app (l x : list str) : commonprefix l (l ++ x) = l.
Proof.
  induction l as [|a l IH]; simpl; [by destruct x|].
  by rewrite bool_decide_eq_true_2, IH.
Qed.

(** The relative path of a path whose absolute form lies below the root. *)
Lemma relpath_below cwd path :
  path ≠ [] →
  abspath cwd path = normpath (join root (join_with sep comps)) →
  relpath cwd path root = Ok (join_all comps).
Proof using Habs Hplain Hne.
  intros Hp Hpath.
  assert (Hroot : abspath cwd root = normpath root)
    by (unfold abspath; by rewrite Habs).
  unfold relpath. rewrite bool_decide_eq_false_2 by done. rewrite Hpath, Hroot.
  rewrite !nonempty_comps_normpath by auto using join_below_abs.
  rewrite norm_comps_below, commonprefix_app, Nat.sub_diag, drop_app_length. simpl.
  by rewrite bool_decide_eq_false_2.
Qed.

Lemma basename_from_app cur a b :
  basename_from cur (a ++ sep :: b) = basename_from [] b.
Proof.
  revert cur. induction a as [|d a IH]; intros cur; simpl; [done|].
  destruct (d =? sep)%N; apply IH.
Qed.

Lemma basename_below :
  basename (join root (join_with sep comps)) = basename (join_with sep comps).
Proof using Habs Hplain.
  unfold basename, join. rewrite join_with_plain_head by done.
  rewrite (bool_decide_eq_false_2 (root = [])) by by apply isabs_nonempty.
  simpl. destruct (endswith root [sep]) eqn:E.
  - apply endswith_sep in E as [q ->]. rewrite <- app_assoc. simpl.
    apply basename_from_app.
  - apply basename_from_app.
Qed.

(** [is_ignored] on the absolute path of an entry below the root. *)
Lemma is_ignored_below fs patterns :
  IgnoreMatcher.is_ignored fs
    {| IgnoreMatcher.root_dir := root; IgnoreMatcher.patterns := patterns |}
    (join root (join_with sep comps))
  = Ok (existsb (IgnoreMatcher.pattern_matches fs root
                   (replace_char sep 47 (join_all comps))
                   (basename (join_with sep comps)))
          patterns).
Proof using Habs Hplain Hne.
  unfold IgnoreMatcher.is_ignored. simpl.
  rewrite (relpath_below (Fs.fs_cwd fs)).
  - simpl. by rewrite basename_below.
  - apply isabs_nonempty, join_below_abs.
  - unfold abspath. by rewrite join_below_abs.
Qed.

(** The same on the path relative to the root, when the process runs in
    the root directory. *)
Lemma is_ignored_relative fs patterns :
  Fs.fs_cwd fs = root →
  IgnoreMatcher.is_ignored fs
    {| IgnoreMatcher.root_dir := root; IgnoreMatcher.patterns := patterns |}
    (join_with sep comps)
  = Ok (existsb (IgnoreMatcher.pattern_matches fs root
                   (replace_char sep 47 (join_all comps))
                   (basename (join_with sep comps)))
          patterns).
Proof using Habs Hplain Hne.
  intros Hcwd. unfold IgnoreMatcher.is_ignored. simpl.
  rewrite (relpath_below (Fs.fs_cwd fs)); [done| |].
  - intros E. pose proof (split_on_join_plain comps Hplain Hne) as Hs.
    rewrite E in Hs. simpl in Hs. subst comps. done.
  - unfold abspath, isabs. by rewrite join_with_plain_head, Hcwd.
Qed.

End Below.

(** ** Claims about [is_ignored] *)

Lemma is_ignored_returns fs self path : ∃ b, IgnoreMatcher.is_ignored fs self path = Ok b.
Proof.
  unfold IgnoreMatcher.is_ignored.
  destruct (relpath (Fs.fs_cwd fs) path (IgnoreMatcher.root_dir self)) as [r|e] eqn:E.
  - by eexists.
  - apply relpath_raises in E as ->. by eexists.
Qed.

(** Where the code follows the directory-prefix rule.  With the single
    pattern [dist/], a root that is an absolute path and any state of the
    file system, [is_ignored] answers true for the entries [dist/app.js]
    and [dist/sub/x.txt] of the root and false for [distillery/readme.md],
    when the entry is named by its absolute path and, if the process runs
    in the root, when it is named by its root-relative path. *)
Lemma directory_prefix_rule fs root :
  isabs root = true →
  let self := {| IgnoreMatcher.root_dir := root;
                 IgnoreMatcher.patterns := [lit "dist/"] |} in
  (IgnoreMatcher.is_ignored fs self (join root (lit "dist/app.js")) = Ok true
   ∧ IgnoreMatcher.is_ignored fs self (join root (lit "dist/sub/x.txt")) = Ok true
   ∧ IgnoreMatcher.is_ignored fs self (join root (lit "distillery/readme.md")) = Ok false)
  ∧ (Fs.fs_cwd fs = root →
     IgnoreMatcher.is_ignored fs self (lit "dist/app.js") = Ok true
     ∧ IgnoreMatcher.is_ignored fs self (lit "dist/sub/x.txt") = Ok true
     ∧ IgnoreMatcher.is_ignored fs self (lit "distillery/readme.md") = Ok false).
Proof.
  intros Habs self. unfold self.
  change (lit "dist/app.js") with (join_with sep [lit "dist"; lit "app.js"]).
  change (lit "dist/sub/x.txt") with (join_with sep [lit "dist"; lit "sub"; lit "x.txt"]).
  change (lit "distillery/readme.md")
    with (join_with sep [lit "distillery"; lit "readme.md"]).
  split; [|intros Hcwd].
  - rewrite !is_ignored_below by done. repeat split; vm_compute; reflexivity.
  - rewrite !is_ignored_relative by done. repeat split; vm_compute; reflexivity.
Qed.

Lemma directory_prefix_rule_example :
  let self := {| IgnoreMatcher.root_dir := lit "/proj";
                 IgnoreMatcher.patterns := [lit "dist/"] |} in
  (IgnoreMatcher.is_ignored (Examples.build_fs true "/") self (lit "/proj/dist/app.js")
   = Ok true
   ∧ IgnoreMatcher.is_ignored (Examples.build_fs true "/") self
       (lit "/proj/dist/sub/x.txt") = Ok true
   ∧ IgnoreMatcher.is_ignored (Examples.build_fs true "/") self
       (lit "/proj/distillery/readme.md") = Ok false)
  ∧ (IgnoreMatcher.is_ignored (Examples.build_fs true "/proj") self (lit "dist/app.js")
     = Ok true
     ∧ IgnoreMatcher.is_ignored (Examples.build_fs true "/proj") self
         (lit "dist/sub/x.txt") = Ok true
     ∧ IgnoreMatcher.is_ignored (Examples.build_fs true "/proj") self
         (lit "distillery/readme.md") = Ok false).
Proof.
  split.
  - exact (proj1 (directory_prefix_rule (Examples.build_fs true "/") (lit "/proj")
                    eq_refl)).
  - exact (proj2 (directory_prefix_rule (Examples.build_fs true "/proj") (lit "/proj")
                    eq_refl) eq_refl).
Qed.

(** C8.  The claim fails on the code for the paths as the claim gives
    them, relative to the root, which the docstring of [is_ignored] allows:
    [os.path.relpath] resolves a relative path from the working directory
    of the process, not from the root.  With the root [/proj], the single
    pattern [dist/] and a process running in [/], [is_ignored] answers
    false for [dist/app.js] and for [dist/sub/x.txt]; it answers true for
    both when the process runs in [/proj], and for their absolute paths
    wherever it runs. *)
Theorem relative_path_is_resolved_from_cwd :
  let self := {| IgnoreMatcher.root_dir := lit "/proj";
                 IgnoreMatcher.patterns := [lit "dist/"] |} in
  let elsewhere := Examples.build_fs false "/" in
  let in_root := Examples.build_fs false "/proj" in
  (IgnoreMatcher.is_ignored elsewhere self (lit "dist/app.js") = Ok false
   ∧ IgnoreMatcher.is_ignored elsewhere self (lit "dist/sub/x.txt") = Ok false)
  ∧ (IgnoreMatcher.is_ignored in_root self (lit "dist/app.js") = Ok true
     ∧ IgnoreMatcher.is_ignored in_root self (lit "dist/sub/x.txt") = Ok true
     ∧ IgnoreMatcher.is_ignored in_root self (lit "distillery/readme.md") = Ok false)
  ∧ (IgnoreMatcher.is_ignored elsewhere self (lit "/proj/dist/app.js") = Ok true
     ∧ IgnoreMatcher.is_ignored elsewhere self (lit "/proj/dist/sub/x.txt") = Ok true
     ∧ IgnoreMatcher.is_ignored elsewhere self (lit "/proj/distillery/readme.md")
       = Ok false).
Proof. repeat split; vm_compute; reflexivity. Qed.

(** C3 (as amended).  [is_ignored] always returns a boolean, and it is a
    function of the path, the pattern list, the root, the working
    directory and, for each stored pattern that does not end with a
    separator, whether the pattern joined to the root is a directory on
    disk: two states of the file system that agree on these give the same
    answer. *)
Theorem is_ignored_pure_up_to_directories fs1 fs2 self path :
  Fs.fs_cwd fs1 = Fs.fs_cwd fs2 →
  (∀ pattern,
     pattern ∈ IgnoreMatcher.patterns self →
     endswith pattern [sep] = false →
     Fs.isdir fs1 (join (IgnoreMatcher.root_dir self) pattern)
     = Fs.isdir fs2 (join (IgnoreMatcher.root_dir self) pattern)) →
  (∃ b, IgnoreMatcher.is_ignored fs1 self path = Ok b)
  ∧ IgnoreMatcher.is_ignored fs1 self path = IgnoreMatcher.is_ignored fs2 self path.
Proof.
  intros Hcwd Hdirs. split; [apply is_ignored_returns|].
  unfold IgnoreMatcher.is_ignored. rewrite Hcwd.
  destruct (except_ValueError _ _) as [rel|e]; simpl; [|done]. f_equal.
  induction (IgnoreMatcher.patterns self) as [|pattern ps IH]; simpl; [done|].
  rewrite IH by (intros; apply Hdirs; [apply elem_of_cons; by right | done]).
  f_equal. unfold IgnoreMatcher.pattern_matches.
  destruct (endswith pattern [sep]) eqn:E; [done|].
  by rewrite Hdirs by (done || apply elem_of_cons; by left).
Qed.

Lemma is_ignored_pure_up_to_directories_witness :
  IgnoreMatcher.is_ignored (Examples.build_fs true "/") Examples.log_matcher
    (lit "/proj/build/out.o")
  = IgnoreMatcher.is_ignored (Examples.build_fs false "/") Examples.log_matcher
      (lit "/proj/build/out.o").
Proof.
  apply (is_ignored_pure_up_to_directories (Examples.build_fs true "/")
           (Examples.build_fs false "/") Examples.log_matcher (lit "/proj/build/out.o")).
  - reflexivity.
  - intros pattern Hin _. apply list_elem_of_singleton in Hin as ->.
    vm_compute. reflexivity.
Defined.

(** C3, the claim as stated fails: for one path, one pattern list and one
    root, the answer is true when the directory [build] exists under the
    root and false when it does not; and for a relative path the answer
    also changes with the working directory of the process. *)
Lemma is_ignored_depends_on_disk :
  (IgnoreMatcher.is_ignored (Examples.build_fs true "/") Examples.build_matcher
     (lit "/proj/build/out.o") = Ok true
   ∧ IgnoreMatcher.is_ignored (Examples.build_fs false "/") Examples.build_matcher
       (lit "/proj/build/out.o") = Ok false)
  ∧ (IgnoreMatcher.is_ignored (Examples.build_fs true "/proj") Examples.build_slash_matcher
       (lit "build/out.o") = Ok true
     ∧ IgnoreMatcher.is_ignored (Examples.build_fs true "/") Examples.build_slash_matcher
         (lit "build/out.o") = Ok false).
Proof. repeat split; vm_compute; reflexivity. Qed.

(** ** Claims about failures *)

Lemma calculate_stats_returns rt fs filepath root_dir :
  ∃ r, calculate_stats rt fs filepath root_dir = Ok r ∧ FileStats.count r = 1.
Proof.
  destruct (calculate_stats_cases rt fs filepath root_dir)
    as [rel [(e & _ & ->) | [(st & _ & _ & ->)
                            | (st & content & avg & cmax & fc & _ & _ & _ & _ & ->)]]];
    by eexists.
Qed.

Lemma load_patterns_returns fs filepath self :
  ∃ extra,
    IgnoreMatcher.load_patterns fs filepath self
    = (Ok tt, {| IgnoreMatcher.root_dir := IgnoreMatcher.root_dir self;
                 IgnoreMatcher.patterns := IgnoreMatcher.patterns self ++ extra |}).
Proof.
  unfold IgnoreMatcher.load_patterns, try_except.
  destruct (Fs.read_lines fs filepath) as [lines failure] eqn:E.
  assert (Hloop : ∀ self, ∃ extra,
    for_each lines (λ line,
      if bool_decide (strip line = []) || startswith (strip line) (lit "#") then ret tt
      else modify (IgnoreMatcher.append_pattern (strip line))) self
    = (Ok tt, {| IgnoreMatcher.root_dir := IgnoreMatcher.root_dir self;
                 IgnoreMatcher.patterns := IgnoreMatcher.patterns self ++ extra |})).
  { clear E. induction lines as [|line lines IH]; intros [root ps];
      cbn [for_each IgnoreMatcher.root_dir IgnoreMatcher.patterns].
    - exists []. unfold ret. by rewrite app_nil_r.
    - unfold bind at 1.
      destruct (bool_decide (strip line = []) || startswith (strip line) (lit "#")).
      + unfold ret at 1. apply IH.
      + unfold modify at 1.
        destruct (IH (IgnoreMatcher.append_pattern (strip line)
                        {| IgnoreMatcher.root_dir := root;
                           IgnoreMatcher.patterns := ps |})) as [extra ->].
        exists (strip line :: extra). unfold IgnoreMatcher.append_pattern.
        cbn [IgnoreMatcher.root_dir IgnoreMatcher.patterns]. by rewrite <- app_assoc. }
  destruct (Hloop self) as [extra Hextra]. exists extra.
  unfold bind. rewrite Hextra. destruct failure as [e|]; [|done].
  unfold raise. by rewrite (read_lines_failure _ _ _ _ E).
Qed.

Lemma matcher_init_returns fs script_dir root_dir :
  ∃ patterns,
    IgnoreMatcher.init fs script_dir root_dir
    = Ok {| IgnoreMatcher.root_dir := root_dir; IgnoreMatcher.patterns := patterns |}.
Proof.
  unfold IgnoreMatcher.init.
  assert (Hone : ∀ p self, ∃ extra,
    (if Fs.exists_ fs p then IgnoreMatcher.load_patterns fs p else ret tt) self
    = (Ok tt, {| IgnoreMatcher.root_dir := IgnoreMatcher.root_dir self;
                 IgnoreMatcher.patterns := IgnoreMatcher.patterns self ++ extra |})).
  { intros p self. destruct (Fs.exists_ fs p); [apply load_patterns_returns|].
    exists []. unfold ret. rewrite app_nil_r. by destruct self. }
  unfold bind.
  destruct (Hone (join script_dir (lit ".analyzerignore"))
              {| IgnoreMatcher.root_dir := root_dir; IgnoreMatcher.patterns := [] |})
    as [e1 ->].
  match goal with |- context [_ ?s] =>
    lazymatch s with
    | IgnoreMatcher.Build_t _ _ =>
        destruct (Hone (join root_dir (lit ".gitignore")) s) as [e2 ->]
    end end.
  match goal with |- context [_ ?s] =>
    lazymatch s with
    | IgnoreMatcher.Build_t _ _ =>
        destruct (Hone (join root_dir (lit ".analyzerignore")) s) as [e3 ->]
    end end.
  by eexists.
Qed.

Lemma keep_dirs_returns fs matcher root dirs :
  ∃ kept, keep_dirs fs matcher root dirs = Ok kept.
Proof.
  induction dirs as [|d dirs [kept IH]]; simpl; [by eexists|].
  destruct (is_ignored_returns fs matcher (join root d)) as [b ->]. simpl.
  rewrite IH. simpl. by eexists.
Qed.

Lemma scan_file_returns rt fs matcher target root file s :
  ∃ s', scan_file rt fs matcher target root file s = Ok s'.
Proof.
  unfold scan_file.
  destruct (is_ignored_returns fs matcher (join root file)) as [[|] ->]; simpl;
    [by eexists|].
  destruct (calculate_stats_returns rt fs (join root file) target) as (r & -> & _). simpl.
  destruct (folder_stats_map s !! root); simpl; by eexists.
Qed.

Lemma scan_files_returns rt fs matcher target root files s :
  ∃ s', scan_files rt fs matcher target root files s = Ok s'.
Proof.
  revert s. induction files as [|file files IH]; intros s; simpl; [by eexists|].
  destruct (scan_file_returns rt fs matcher target root file s) as [s' ->]. simpl.
  apply IH.
Qed.

Lemma scan_directory_returns rt fs matcher target root dirs files s :
  ∃ r, scan_directory rt fs matcher target root dirs files s = Ok r.
Proof.
  unfold scan_directory.
  destruct (keep_dirs_returns fs matcher root dirs) as [kept ->]. simpl.
  destruct (scan_files_returns rt fs matcher target root files s) as [s' ->]. simpl.
  by eexists.
Qed.

(** A walk whose loop body never raises runs to its end. *)
Lemma walk_node_returns {S : Type}
    (body : str → list str → list str → S → result (list str * S)) :
  (∀ top dirs files s, ∃ r, body top dirs files s = Ok r) →
  ∀ n top s, ∃ s', Fs.walk_node body top n s = Ok s'.
Proof.
  intros Hbody. fix IH 1. intros [d|st entries| |t|st es] top s; simpl;
    try (by eexists).
  destruct (Hbody top
              (filter (λ e, Fs.is_dir_node e.2 = true) entries).*1
              (filter (λ e, Fs.is_dir_node e.2 = false) entries).*1 s)
    as [[dirs' s1] ->]. simpl.
  generalize s1. clear s1 s.
  generalize entries at 1 as es.
  fix IHes 1. intros [|[name n'] es] s; [by eexists|].
  destruct (Fs.is_dir_node n' && bool_decide (name ∈ dirs')).
  - destruct (IH n' (join top name) s) as [s' ->]. simpl. apply IHes.
  - apply IHes.
Qed.

Lemma main_returns rt fs script_dir target_dir :
  Fs.exists_ fs (abspath (Fs.fs_cwd fs) target_dir) = true →
  ∃ s, main rt fs script_dir target_dir = Ok s.
Proof.
  intros Hex. unfold main. rewrite Hex. simpl.
  destruct (matcher_init_returns fs script_dir (abspath (Fs.fs_cwd fs) target_dir))
    as [patterns ->]. simpl.
  unfold Fs.walk. destruct (Fs.resolve fs (abspath _ _)); [|by eexists].
  apply walk_node_returns. intros. apply scan_directory_returns.
Qed.

Lemma main_is_scan_tree rt fs script_dir target_dir :
  Fs.exists_ fs (abspath (Fs.fs_cwd fs) target_dir) = true →
  main rt fs script_dir target_dir
  = scan_tree rt fs script_dir (abspath (Fs.fs_cwd fs) target_dir).
Proof. intros Hex. unfold main, scan_tree. by rewrite Hex. Qed.








(** ** The end-to-end scenario *)

(** C2 (as amended).  In the scenario, scanned with the single pattern
    [*.png], the image is ignored and never measured: the project total has
    count 1 and line count 3, its skipped flag is still false, and the only
    record is that of [a.txt], which is not skipped.  Scanned without any
    pattern, both files are counted: the total has count 2, line count 3
    and a skipped count of one. *)
Theorem end_to_end_scenario :
  (∃ matcher s a,
     IgnoreMatcher.init (Examples.scenario ["*.png" ++ Examples.newline]%string)
       (lit "/tool") (lit "/proj") = Ok matcher
     ∧ IgnoreMatcher.patterns matcher = [lit "*.png"]
     ∧ main Examples.plain_runtime (Examples.scenario ["*.png" ++ Examples.newline]%string)
         (lit "/tool") (lit "/proj") = Ok s
     ∧ FileStats.count (total_stats s) = 1
     ∧ FileStats.line_count (total_stats s) = 3
     ∧ FileStats.skipped (total_stats s) = Flag false
     ∧ all_file_details s = [a]
     ∧ FileStats.filename a = lit "a.txt"
     ∧ FileStats.skipped a = Flag false)
  ∧ (∃ s a b,
       main Examples.plain_runtime (Examples.scenario []) (lit "/tool") (lit "/proj") = Ok s
       ∧ FileStats.count (total_stats s) = 2
       ∧ FileStats.line_count (total_stats s) = 3
       ∧ FileStats.skipped (total_stats s) = Tally 1
       ∧ all_file_details s = [a; b]
       ∧ FileStats.filename a = lit "a.txt" ∧ FileStats.skipped a = Flag false
       ∧ FileStats.filename b = lit "img.png" ∧ FileStats.skipped b = Flag true).
Proof.
  split.
  - do 3 eexists. split; [vm_compute; reflexivity|]. split; [reflexivity|].
    split; [vm_compute; reflexivity|]. repeat split.
  - do 3 eexists. split; [vm_compute; reflexivity|]. repeat split.
Qed.

(** C2, the claim as stated fails: with the pattern [*.png] the total
    counts one file, not two, and no file is flagged skipped. *)
Lemma ignored_file_is_not_counted :
  ∃ s,
    main Examples.plain_runtime (Examples.scenario ["*.png" ++ Examples.newline]%string)
      (lit "/tool") (lit "/proj") = Ok s
    ∧ FileStats.count (total_stats s) ≠ 2
    ∧ skip_value (FileStats.skipped (total_stats s)) ≠ 1
    ∧ Forall (λ r, truthy (FileStats.skipped r) = false) (all_file_details s).
Proof.
  eexists. split; [vm_compute; reflexivity|].
  split; [done|]. split; [done|]. by repeat constructor.
Qed.

(** ** Instances of the merge claims *)

Lemma add_associative_up_to_skipped_witness :
  ∃ A B,
    calculate_stats Examples.plain_runtime (Examples.scenario [])
      (lit "/proj/a.txt") (lit "/proj") = Ok A
    ∧ calculate_stats Examples.plain_runtime (Examples.scenario [])
        (lit "/proj/img.png") (lit "/proj") = Ok B
    ∧ FileStats.add (FileStats.add A B) A = FileStats.add A (FileStats.add B A).
Proof.
  do 2 eexists. split; [vm_compute; reflexivity|]. split; [vm_compute; reflexivity|].
  match goal with |- FileStats.add (FileStats.add ?A ?B) ?C = _ =>
    apply (add_associative_up_to_skipped A B C)
  end.
  - exists Examples.plain_runtime, (Examples.scenario []), (lit "/proj/a.txt"), (lit "/proj").
    vm_compute. reflexivity.
  - exists Examples.plain_runtime, (Examples.scenario []), (lit "/proj/img.png"), (lit "/proj").
    vm_compute. reflexivity.
  - exists Examples.plain_runtime, (Examples.scenario []), (lit "/proj/a.txt"), (lit "/proj").
    vm_compute. reflexivity.
  - intros [_ H]. discriminate H.
Defined.

(** C1, the claim as stated fails: with A the record of [a.txt] and B and
    C two records of the skipped [img.png], merging as (A + B) + C counts
    two skipped files and merging as A + (B + C) counts one. *)
Lemma add_not_associative_on_skipped :
  ∃ A B C,
    calculate_stats Examples.plain_runtime (Examples.scenario [])
      (lit "/proj/a.txt") (lit "/proj") = Ok A
    ∧ calculate_stats Examples.plain_runtime (Examples.scenario [])
        (lit "/proj/img.png") (lit "/proj") = Ok B
    ∧ calculate_stats Examples.plain_runtime (Examples.scenario [])
        (lit "/proj/img.png") (lit "/proj") = Ok C
    ∧ FileStats.skipped (FileStats.add (FileStats.add A B) C) = Tally 2
    ∧ FileStats.skipped (FileStats.add A (FileStats.add B C)) = Tally 1
    ∧ skip_value (FileStats.skipped (FileStats.add (FileStats.add A B) C))
      ≠ skip_value (FileStats.skipped (FileStats.add A (FileStats.add B C))).
Proof.
  do 3 eexists. split; [vm_compute; reflexivity|]. split; [vm_compute; reflexivity|].
  split; [vm_compute; reflexivity|]. split; [reflexivity|]. split; [reflexivity|]. done.
Qed.

Lemma totals_independent_of_order_witness :
  ∃ A B,
    calculate_stats Examples.plain_runtime (Examples.scenario [])
      (lit "/proj/a.txt") (lit "/proj") = Ok A
    ∧ calculate_stats Examples.plain_runtime (Examples.scenario [])
        (lit "/proj/img.png") (lit "/proj") = Ok B
    ∧ FileStats.line_count (merge_all (blank_record None None) [A; B])
      = FileStats.line_count (merge_all (blank_record None None) [B; A])
    ∧ FileStats.size (merge_all (blank_record None None) [A; B]) = 19.
Proof.
  do 2 eexists. split; [vm_compute; reflexivity|]. split; [vm_compute; reflexivity|].
  split; [|reflexivity].
  match goal with |- FileStats.line_count (merge_all ?t ?l1) = FileStats.line_count (merge_all ?t ?l2) =>
    apply (totals_independent_of_order (Examples.scenario []) t l1 l2)
  end.
  - reflexivity.
  - apply Permutation_swap.
Defined.

(** * Further properties *)

(** ** Stripping *)

Lemma lstrip_with_suffix f s : ∃ u, s = u ++ lstrip_with f s ∧ Forall (λ c, f c = true) u.
Proof.
  induction s as [|c s (u & IH & Hu)]; simpl; [by exists []|].
  destruct (f c) eqn:E.
  - exists (c :: u). split; [by rewrite <- app_comm_cons, <- IH | by constructor].
  - by exists [].
Qed.

Lemma lstrip_with_head f s c s' : lstrip_with f s = c :: s' → f c = false.
Proof.
  induction s as [|d s IH]; simpl; [done|].
  destruct (f d) eqn:E; [done|]. by intros [= <- _].
Qed.

Lemma lstrip_with_id f s : head s = None ∨ (∃ c, head s = Some c ∧ f c = false) →
  lstrip_with f s = s.
Proof.
  destruct s as [|d s]; simpl; [done|]. intros [[=]|(c & [= <-] & ->)]. done.
Qed.

Lemma rstrip_with_prefix f s : ∃ t, s = rstrip_with f s ++ t ∧ Forall (λ c, f c = true) t.
Proof.
  unfold rstrip_with. destruct (lstrip_with_suffix f (reverse s)) as (u & Hu & Hf).
  exists (reverse u). split.
  - rewrite <- reverse_app, <- Hu. by rewrite reverse_involutive.
  - by apply Forall_reverse.
Qed.

Lemma rstrip_with_last f s c : last (rstrip_with f s) = Some c → f c = false.
Proof.
  unfold rstrip_with. rewrite last_reverse.
  destruct (lstrip_with f (reverse s)) as [|d r] eqn:E; [done|].
  intros [= <-]. by eapply lstrip_with_head.
Qed.

Lemma rstrip_with_id f s : Forall (λ c, f c = false) s → rstrip_with f s = s.
Proof.
  intros H. unfold rstrip_with. rewrite lstrip_with_id; [apply reverse_involutive|].
  destruct (reverse s) as [|d r] eqn:E; [by left|]. right. exists d. split; [done|].
  apply (Forall_reverse _ s) in H. rewrite E in H. by inversion H.
Qed.

Lemma strip_ends s c :
  (head (strip s) = Some c → isspace c = false)
  ∧ (last (strip s) = Some c → isspace c = false).
Proof.
  unfold strip. split; [|apply rstrip_with_last].
  destruct (rstrip_with_prefix isspace (lstrip_with isspace s)) as (t & Ht & _).
  destruct (rstrip_with isspace (lstrip_with isspace s)) as [|d r]; [done|].
  intros [= ->]. by eapply lstrip_with_head.
Qed.

(** ** Loading patterns *)

Lemma patterns_of_lines_cons line lines :
  patterns_of_lines (line :: lines)
  = (if bool_decide (strip line = []) || startswith (strip line) (lit "#")
     then [] else [strip line]) ++ patterns_of_lines lines.
Proof.
  unfold patterns_of_lines. rewrite fmap_cons, filter_cons.
  case_decide as H; case_bool_decide as H1; simpl.
  - by destruct H.
  - destruct H as [_ ->]. done.
  - done.
  - destruct (startswith (strip line) (lit "#")) eqn:E; [done|]. by destruct H.
Qed.

Lemma load_patterns_spec fs filepath self :
  IgnoreMatcher.load_patterns fs filepath self
  = (Ok tt, {| IgnoreMatcher.root_dir := IgnoreMatcher.root_dir self;
               IgnoreMatcher.patterns :=
                 IgnoreMatcher.patterns self
                 ++ patterns_of_lines (Fs.read_lines fs filepath).1 |}).
Proof.
  unfold IgnoreMatcher.load_patterns, try_except.
  destruct (Fs.read_lines fs filepath) as [lines failure] eqn:E.
  assert (Hloop : ∀ self,
    for_each lines (λ line,
      if bool_decide (strip line = []) || startswith (strip line) (lit "#") then ret tt
      else modify (IgnoreMatcher.append_pattern (strip line))) self
    = (Ok tt, {| IgnoreMatcher.root_dir := IgnoreMatcher.root_dir self;
                 IgnoreMatcher.patterns :=
                   IgnoreMatcher.patterns self ++ patterns_of_lines lines |})).
  { clear E. induction lines as [|line lines IH]; intros [root ps];
      cbn [for_each IgnoreMatcher.root_dir IgnoreMatcher.patterns].
    - unfold ret, patterns_of_lines. simpl. by rewrite app_nil_r.
    - rewrite patterns_of_lines_cons. unfold bind at 1.
      destruct (bool_decide (strip line = []) || startswith (strip line) (lit "#")).
      + unfold ret at 1. apply IH.
      + unfold modify at 1. rewrite IH. unfold IgnoreMatcher.append_pattern.
        cbn [IgnoreMatcher.root_dir IgnoreMatcher.patterns]. by rewrite <- app_assoc. }
  unfold bind. rewrite Hloop. simpl. destruct failure as [e|]; [|done].
  unfold raise. by rewrite (read_lines_failure _ _ _ _ E).
Qed.

(** X1.  [load_patterns] appends to the pattern list, in the order of the
    file, the stripped form of every line delivered before a read failure
    that is neither blank nor a comment, and nothing else: a stored pattern
    is never empty, never starts with [#] and neither starts nor ends with
    whitespace. *)
Theorem load_patterns_keeps_rules_only fs filepath self :
  IgnoreMatcher.load_patterns fs filepath self
  = (Ok tt, {| IgnoreMatcher.root_dir := IgnoreMatcher.root_dir self;
               IgnoreMatcher.patterns :=
                 IgnoreMatcher.patterns self
                 ++ patterns_of_lines (Fs.read_lines fs filepath).1 |})
  ∧ ∀ p, p ∈ patterns_of_lines (Fs.read_lines fs filepath).1 →
         p ≠ []
         ∧ startswith p (lit "#") = false
         ∧ (∃ line, line ∈ (Fs.read_lines fs filepath).1 ∧ p = strip line)
         ∧ (∀ c, head p = Some c ∨ last p = Some c → isspace c = false).
Proof.
  split; [apply load_patterns_spec|].
  intros p. unfold patterns_of_lines. rewrite list_elem_of_filter, list_elem_of_fmap.
  intros [[Hne Hc] (line & -> & Hin)].
  split; [assumption|]. split; [assumption|]. split; [exists line; by split|].
  intros c. destruct (strip_ends line c) as [Hh Hl]. intros [H|H]; auto.
Qed.

Lemma load_patterns_keeps_rules_only_witness :
  IgnoreMatcher.load_patterns (Examples.scenario ["# images"; "  *.png  "; " "]%string)
    (lit "/tool/.analyzerignore") (IgnoreMatcher.Build_t (lit "/proj") [])
  = (Ok tt, IgnoreMatcher.Build_t (lit "/proj") [lit "*.png"])
  ∧ startswith (lit "*.png") (lit "#") = false.
Proof.
  destruct (load_patterns_keeps_rules_only
              (Examples.scenario ["# images"; "  *.png  "; " "]%string)
              (lit "/tool/.analyzerignore") (IgnoreMatcher.Build_t (lit "/proj") []))
    as [H1 H2].
  split; [rewrite H1; vm_compute; reflexivity|].
  apply (H2 (lit "*.png")).
  replace (patterns_of_lines _) with [lit "*.png"] by (vm_compute; reflexivity).
  apply elem_of_cons. by left.
Defined.

(** X2.  [IgnoreMatcher(root_dir)] holds the given root and the patterns
    of the tool-wide ignore file, then those of the [.gitignore] of the
    root, then those of its [.analyzerignore], each source contributing
    only if it exists. *)
Theorem matcher_patterns_in_source_order fs script_dir root_dir :
  IgnoreMatcher.init fs script_dir root_dir
  = Ok {| IgnoreMatcher.root_dir := root_dir;
          IgnoreMatcher.patterns :=
            source_patterns fs (join script_dir (lit ".analyzerignore"))
            ++ source_patterns fs (join root_dir (lit ".gitignore"))
            ++ source_patterns fs (join root_dir (lit ".analyzerignore")) |}.
Proof.
  unfold IgnoreMatcher.init.
  assert (Hone : ∀ p self,
    (if Fs.exists_ fs p then IgnoreMatcher.load_patterns fs p else ret tt) self
    = (Ok tt, {| IgnoreMatcher.root_dir := IgnoreMatcher.root_dir self;
                 IgnoreMatcher.patterns :=
                   IgnoreMatcher.patterns self ++ source_patterns fs p |})).
  { intros p self. unfold source_patterns.
    destruct (Fs.exists_ fs p); [apply load_patterns_spec|].
    unfold ret. rewrite app_nil_r. by destruct self. }
  unfold bind. rewrite !Hone. simpl. by rewrite <- app_assoc.
Qed.

(** ** Pattern lists *)

Lemma existsb_perm {A} (f : A → bool) l1 l2 : l1 ≡ₚ l2 → existsb f l1 = existsb f l2.
Proof.
  induction 1 as [|x l1 l2 _ IH|x y l|l1 l2 l3 _ IH1 _ IH2]; simpl.
  - done.
  - by rewrite IH.
  - by destruct (f x), (f y).
  - congruence.
Qed.

Lemma is_ignored_true_iff fs self path :
  IgnoreMatcher.is_ignored fs self path = Ok true
  ↔ ∃ rel,
      except_ValueError (relpath (Fs.fs_cwd fs) path (IgnoreMatcher.root_dir self)) (Ok path)
      = Ok rel
      ∧ ∃ pattern,
          pattern ∈ IgnoreMatcher.patterns self
          ∧ IgnoreMatcher.pattern_matches fs (IgnoreMatcher.root_dir self)
              (replace_char sep 47 rel) (basename path) pattern = true.
Proof.
  unfold IgnoreMatcher.is_ignored.
  destruct (except_ValueError _ _) as [rel|e]; simpl.
  - split.
    + intros [= H]. exists rel. split; [done|].
      apply existsb_exists in H as (p & Hin & Hp). exists p.
      by rewrite list_elem_of_In.
    + intros (rel' & [= <-] & p & Hin & Hp). f_equal. apply existsb_exists.
      exists p. by rewrite <- list_elem_of_In.
  - split; [done|]. by intros (? & ? & _).
Qed.

(** X3.  The answer of [is_ignored] does not depend on the order of the
    stored patterns, a path that is ignored stays ignored when patterns
    are added before or after (no pattern un-ignores), and with no pattern
    nothing is ignored. *)
Theorem is_ignored_order_and_extension fs root ps qs path :
  (ps ≡ₚ qs →
   IgnoreMatcher.is_ignored fs (IgnoreMatcher.Build_t root ps) path
   = IgnoreMatcher.is_ignored fs (IgnoreMatcher.Build_t root qs) path)
  ∧ (IgnoreMatcher.is_ignored fs (IgnoreMatcher.Build_t root ps) path = Ok true →
     IgnoreMatcher.is_ignored fs (IgnoreMatcher.Build_t root (ps ++ qs)) path = Ok true
     ∧ IgnoreMatcher.is_ignored fs (IgnoreMatcher.Build_t root (qs ++ ps)) path = Ok true)
  ∧ IgnoreMatcher.is_ignored fs (IgnoreMatcher.Build_t root []) path = Ok false.
Proof.
  split; [|split].
  - intros Hperm. unfold IgnoreMatcher.is_ignored. simpl.
    destruct (except_ValueError _ _); simpl; [|done].
    by rewrite (existsb_perm _ _ _ Hperm).
  - rewrite !is_ignored_true_iff. simpl. intros (rel & Hrel & p & Hin & Hp).
    split; exists rel; (split; [done|]); exists p; (split; [|done]);
      apply elem_of_app; auto.
  - destruct (is_ignored_returns fs (IgnoreMatcher.Build_t root []) path) as [b Hb].
    destruct b; [|done]. apply is_ignored_true_iff in Hb as (_ & _ & p & Hin & _).
    by apply elem_of_nil in Hin.
Qed.

Lemma is_ignored_order_and_extension_witness :
  IgnoreMatcher.is_ignored (Examples.build_fs true "/")
    (IgnoreMatcher.Build_t (lit "/proj") [lit "*.log"; lit "build"]) (lit "/proj/build/out.o")
  = IgnoreMatcher.is_ignored (Examples.build_fs true "/")
      (IgnoreMatcher.Build_t (lit "/proj") [lit "build"; lit "*.log"]) (lit "/proj/build/out.o").
Proof.
  apply (proj1 (is_ignored_order_and_extension (Examples.build_fs true "/") (lit "/proj")
                  [lit "*.log"; lit "build"] [lit "build"; lit "*.log"]
                  (lit "/proj/build/out.o"))).
  apply Permutation_swap.
Defined.

(** ** Name patterns *)

Lemma basename_from_plain cur b : sep ∉ b → basename_from cur b = cur ++ b.
Proof.
  revert cur. induction b as [|d b IH]; intros cur Hb; simpl; [by rewrite app_nil_r|].
  apply not_elem_of_cons in Hb as [Hd Hb].
  destruct (d =? sep)%N eqn:E; [apply N.eqb_eq in E; congruence|].
  rewrite IH by done. by rewrite <- app_assoc.
Qed.

Lemma startswith_plain name : sep ∉ name → startswith name [sep] = false.
Proof.
  destruct name as [|d name]; [done|]. intros [Hd _]%not_elem_of_cons.
  rewrite startswith_sep_cons. by apply N.eqb_neq.
Qed.

(** The base name of an entry of a directory is the name of the entry. *)
Lemma basename_join dir name : sep ∉ name → basename (join dir name) = name.
Proof.
  intros Hn. unfold basename, join. rewrite startswith_plain by done.
  case_bool_decide as Hd; simpl.
  - subst dir. simpl. by rewrite basename_from_plain.
  - destruct (endswith dir [sep]) eqn:E.
    + apply endswith_sep in E as [q ->]. rewrite <- app_assoc. simpl.
      rewrite basename_from_app. by rewrite basename_from_plain.
    + rewrite basename_from_app. by rewrite basename_from_plain.
Qed.

Lemma literal_char_spec c :
  literal_char c = true → c ≠ 42%N ∧ c ≠ 63%N ∧ c ≠ 91%N ∧ c ≠ sep.
Proof.
  unfold literal_char. rewrite negb_true_iff, !orb_false_iff, !N.eqb_neq. tauto.
Qed.

Lemma literal_no_sep s : forallb literal_char s = true → sep ∉ s.
Proof.
  rewrite forallb_forall. intros H Hin. apply list_elem_of_In, H, literal_char_spec in Hin.
  tauto.
Qed.

Lemma translate_fuel_literal n s :
  forallb literal_char s = true → (length s ≤ n)%nat →
  Fnmatch.translate_fuel n s = Fnmatch.TLit <$> s.
Proof.
  revert n. induction s as [|c s IH]; intros n; simpl.
  - by destruct n.
  - intros [Hc Hs]%andb_true_iff Hn. destruct n as [|n]; [lia|]. simpl.
    apply literal_char_spec in Hc as (H1 & H2 & H3 & _).
    apply N.eqb_neq in H1, H2, H3. rewrite H1, H2, H3, IH by (done || lia). done.
Qed.

Lemma match_toks_literal s : Fnmatch.match_toks (Fnmatch.TLit <$> s) s = true.
Proof.
  induction s as [|c s IH]; [done|]. rewrite fmap_cons. cbn [Fnmatch.match_toks].
  by rewrite N.eqb_refl, IH.
Qed.

Lemma match_toks_star ts s :
  Fnmatch.match_toks (Fnmatch.TStar :: ts) s
  = Fnmatch.match_toks ts s
    || match s with [] => false | _ :: s' => Fnmatch.match_toks (Fnmatch.TStar :: ts) s' end.
Proof. by destruct s. Qed.

Lemma match_toks_star_suffix ts a b :
  Fnmatch.match_toks ts b = true → Fnmatch.match_toks (Fnmatch.TStar :: ts) (a ++ b) = true.
Proof.
  intros Hb. induction a as [|c a IH]; rewrite match_toks_star.
  - simpl. by rewrite Hb.
  - rewrite <- app_comm_cons, IH. apply orb_true_r.
Qed.

(** A literal pattern matches itself, and a star followed by literal
    characters matches every name that ends with them. *)
Lemma fnmatch_literal s : forallb literal_char s = true → Fnmatch.fnmatch s s = true.
Proof.
  intros H. unfold Fnmatch.fnmatch, Fnmatch.translate.
  rewrite translate_fuel_literal by done. apply match_toks_literal.
Qed.

Lemma fnmatch_star_suffix stem suffix :
  forallb literal_char suffix = true →
  Fnmatch.fnmatch (stem ++ suffix) (42%N :: suffix) = true.
Proof.
  intros H. unfold Fnmatch.fnmatch, Fnmatch.translate. simpl.
  rewrite translate_fuel_literal by done.
  apply match_toks_star_suffix, match_toks_literal.
Qed.

Lemma rstrip_sep_plain s : sep ∉ s → rstrip_char sep s = s.
Proof.
  intros H. apply rstrip_with_id, Forall_forall. intros c Hc.
  apply N.eqb_neq. by intros <-.
Qed.

Lemma is_ignored_by_name fs self path pattern :
  pattern ∈ IgnoreMatcher.patterns self →
  Fnmatch.fnmatch (basename path) (rstrip_char sep pattern) = true →
  IgnoreMatcher.is_ignored fs self path = Ok true.
Proof.
  intros Hin Hm. apply is_ignored_true_iff.
  destruct (relpath (Fs.fs_cwd fs) path (IgnoreMatcher.root_dir self)) as [rel|e] eqn:E.
  - exists rel. split; [done|]. exists pattern. split; [done|].
    unfold IgnoreMatcher.pattern_matches. by rewrite Hm.
  - apply relpath_raises in E as ->. exists path. split; [done|].
    exists pattern. split; [done|]. unfold IgnoreMatcher.pattern_matches. by rewrite Hm.
Qed.

(** X4.  A stored pattern that matches the base name of a path makes
    [is_ignored] answer true, wherever the path lies, whatever the root and
    the state of the file system.  In particular a pattern made of a star
    and literal characters (such as [*.log]) ignores, in every directory,
    every entry whose name ends with these characters, and a pattern made
    of literal characters (such as [node_modules]) ignores, in every
    directory, the entry of that name. *)
Theorem name_patterns_apply_in_every_directory fs self pattern :
  pattern ∈ IgnoreMatcher.patterns self →
  (∀ path,
     Fnmatch.fnmatch (basename path) (rstrip_char sep pattern) = true →
     IgnoreMatcher.is_ignored fs self path = Ok true)
  ∧ (∀ suffix dir stem,
       pattern = 42%N :: suffix →
       forallb literal_char suffix = true →
       sep ∉ stem →
       IgnoreMatcher.is_ignored fs self (join dir (stem ++ suffix)) = Ok true)
  ∧ (∀ dir,
       forallb literal_char pattern = true →
       IgnoreMatcher.is_ignored fs self (join dir pattern) = Ok true).
Proof.
  intros Hin. split; [|split].
  - intros path. by apply is_ignored_by_name.
  - intros suffix dir stem -> Hlit Hstem.
    pose proof (literal_no_sep suffix Hlit) as Hsuf.
    apply (is_ignored_by_name fs self _ (42%N :: suffix)); [done|].
    rewrite basename_join by (rewrite elem_of_app; tauto).
    rewrite rstrip_sep_plain by (rewrite elem_of_cons; intros [[=]|?]; done).
    by apply fnmatch_star_suffix.
  - intros dir Hlit. pose proof (literal_no_sep pattern Hlit) as Hsep.
    apply (is_ignored_by_name fs self _ pattern); [done|].
    rewrite basename_join, rstrip_sep_plain by done. by apply fnmatch_literal.
Qed.

Lemma name_patterns_apply_in_every_directory_witness :
  IgnoreMatcher.is_ignored (Examples.build_fs true "/") Examples.log_matcher
    (join (lit "/proj/build/deep") (lit "trace" ++ lit ".log")) = Ok true.
Proof.
  apply (proj1 (proj2 (name_patterns_apply_in_every_directory
                         (Examples.build_fs true "/") Examples.log_matcher (lit "*.log")
                         ltac:(by apply list_elem_of_singleton)))
           (lit ".log") (lit "/proj/build/deep") (lit "trace")).
  - reflexivity.
  - reflexivity.
  - vm_compute. intros H. repeat (apply elem_of_cons in H as [[=]|H]). by apply elem_of_nil in H.
Defined.

(** ** The scan, step by step *)

Lemma walk_entries_invariant {S : Type}
    (body : str → list str → list str → S → result (list str * S))
    (I : S → Prop) (D : str → Fs.node → Prop) top dirs' entries :
  (∀ name st' entries',
     (name, Fs.Dir st' entries') ∈ entries → name ∈ dirs' →
     D (join top name) (Fs.Dir st' entries')) →
  Forall (λ e, ∀ top s s', D top e.2 → I s →
                           Fs.walk_node body top e.2 s = Ok s' → I s') entries →
  ∀ s s', I s → walk_entries body top dirs' entries s = Ok s' → I s'.
Proof.
  intros HD Hall. induction Hall as [|[name n] es Hn _ IH]; intros s s' HI; simpl.
  - by intros [= <-].
  - assert (HD' : ∀ name st' entries',
                    (name, Fs.Dir st' entries') ∈ es → name ∈ dirs' →
                    D (join top name) (Fs.Dir st' entries')).
    { intros ??? Hin. apply HD, elem_of_cons. by right. }
    destruct (Fs.is_dir_node n && bool_decide (name ∈ dirs')) eqn:E; [|by apply IH].
    apply andb_true_iff in E as [_ Hin%bool_decide_eq_true].
    destruct (Fs.walk_node body (join top name) n s) as [s1|e] eqn:Ew; simpl; [|done].
    apply IH; [done|]. destruct n as [d|st' es'| |t|st' es'];
      try (simpl in Ew; by injection Ew as <-).
    simpl in Hn. eapply Hn; [|done|done]. apply HD; [|done]. apply elem_of_cons. by left.
Qed.

(** An invariant of the loop state that the loop body maintains in every
    directory it is run in holds at the end of the walk. *)
Lemma walk_node_invariant {S : Type}
    (body : str → list str → list str → S → result (list str * S))
    (I : S → Prop) (D : str → Fs.node → Prop) :
  (∀ top st entries s dirs' s',
     D top (Fs.Dir st entries) → I s →
     body top (filter (λ e, Fs.is_dir_node e.2 = true) entries).*1
              (filter (λ e, Fs.is_dir_node e.2 = false) entries).*1 s = Ok (dirs', s') →
     I s' ∧ ∀ name st' entries',
              (name, Fs.Dir st' entries') ∈ entries → name ∈ dirs' →
              D (join top name) (Fs.Dir st' entries')) →
  ∀ n top s s', D top n → I s → Fs.walk_node body top n s = Ok s' → I s'.
Proof.
  intros Hbody n.
  induction n as [d|st entries IH| |t IH|st entries IH] using node_ind_entries;
    intros top s s' HD HI Hw; try (simpl in Hw; by injection Hw as <-).
  rewrite walk_node_dir in Hw.
  destruct (body top _ _ s) as [[dirs' s1]|e] eqn:Eb; simpl in Hw; [|done].
  destruct (Hbody _ _ _ _ _ _ HD HI Eb) as [HI1 Hdirs].
  by eapply walk_entries_invariant.
Qed.

Lemma keep_dirs_kept fs matcher root dirs kept :
  keep_dirs fs matcher root dirs = Ok kept →
  ∀ d, d ∈ kept → d ∈ dirs ∧ IgnoreMatcher.is_ignored fs matcher (join root d) = Ok false.
Proof.
  revert kept. induction dirs as [|x dirs IH]; intros kept; simpl.
  - intros [= <-] d Hd. by apply elem_of_nil in Hd.
  - destruct (IgnoreMatcher.is_ignored fs matcher (join root x)) as [b|] eqn:E; simpl;
      [|done].
    destruct (keep_dirs fs matcher root dirs) as [k|]; simpl; [|done].
    intros [= <-] d Hd. destruct b.
    + destruct (IH k eq_refl d Hd). split; [by apply elem_of_cons; right | done].
    + apply elem_of_cons in Hd as [->|Hd].
      * split; [by apply elem_of_cons; left | done].
      * destruct (IH k eq_refl d Hd). split; [by apply elem_of_cons; right | done].
Qed.

Lemma keep_dirs_complete fs matcher root dirs kept d :
  keep_dirs fs matcher root dirs = Ok kept →
  d ∈ dirs → IgnoreMatcher.is_ignored fs matcher (join root d) = Ok false → d ∈ kept.
Proof.
  intros Hk Hd Hig. revert kept Hk.
  induction dirs as [|x dirs IH]; intros kept; [by apply elem_of_nil in Hd|]. simpl.
  destruct (IgnoreMatcher.is_ignored fs matcher (join root x)) as [b|] eqn:E; simpl;
    [|done].
  destruct (keep_dirs fs matcher root dirs) as [k|]; simpl; [|done].
  intros [= <-]. apply elem_of_cons in Hd as [->|Hd].
  - rewrite Hig in E. injection E as <-. by apply elem_of_cons; left.
  - destruct b; [by apply IH|]. apply elem_of_cons; right. by apply IH.
Qed.

Lemma scan_file_cases rt fs matcher target root file s s' :
  scan_file rt fs matcher target root file s = Ok s' →
  (IgnoreMatcher.is_ignored fs matcher (join root file) = Ok true ∧ s' = s)
  ∨ (IgnoreMatcher.is_ignored fs matcher (join root file) = Ok false
     ∧ ∃ r, calculate_stats rt fs (join root file) target = Ok r
            ∧ s' = record_file s root r).
Proof.
  unfold scan_file.
  destruct (IgnoreMatcher.is_ignored fs matcher (join root file)) as [[|]|]; simpl;
    [intros [= <-]; by left | | done].
  destruct (calculate_stats rt fs (join root file) target) as [r|]; simpl; [|done].
  intros H. right. split; [done|]. exists r. split; [done|].
  unfold record_file. destruct (folder_stats_map s !! root); simpl in *; by injection H as <-.
Qed.

(** The names that [os.walk] hands to the loop body. *)
Lemma walk_files_spec (entries : list (str * Fs.node)) file :
  file ∈ (filter (λ e, Fs.is_dir_node e.2 = false) entries).*1
  ↔ ∃ n, (file, n) ∈ entries ∧ Fs.is_dir_node n = false.
Proof.
  rewrite list_elem_of_fmap. split.
  - intros ([name n] & -> & [Hn Hin]%list_elem_of_filter). by exists n.
  - intros (n & Hin & Hn). exists (file, n). split; [done|]. by apply list_elem_of_filter.
Qed.

Lemma walk_dirs_spec (entries : list (str * Fs.node)) name :
  name ∈ (filter (λ e, Fs.is_dir_node e.2 = true) entries).*1
  ↔ ∃ n, (name, n) ∈ entries ∧ Fs.is_dir_node n = true.
Proof.
  rewrite list_elem_of_fmap. split.
  - intros ([name' n] & -> & [Hn Hin]%list_elem_of_filter). by exists n.
  - intros (n & Hin & Hn). exists (name, n). split; [done|]. by apply list_elem_of_filter.
Qed.

(** A directory entered stays entered when the scan goes one directory
    further down. *)
Lemma entered_snoc fs matcher top n0 root st entries name st' entries' :
  entered fs matcher top n0 root (Fs.Dir st entries) →
  (name, Fs.Dir st' entries') ∈ entries →
  IgnoreMatcher.is_ignored fs matcher (join root name) = Ok false →
  entered fs matcher top n0 (join root name) (Fs.Dir st' entries').
Proof.
  intros Hent Hin Hig. remember (Fs.Dir st entries) as target eqn:Ht.
  induction Hent as [top n0|top st0 es0 name0 st1 es1 root n' Hin0 Hig0 Hent IH].
  - subst n0. eapply entered_below; [done|done|apply entered_here].
  - eapply entered_below; [done|done|]. by apply IH.
Qed.

Section ScanInduction.
Variables (rt : runtime) (fs : Fs.filesystem) (matcher : IgnoreMatcher.t).
Variables (top : str) (n0 : Fs.node).
Variable I : scan → Prop.
Hypothesis Hstep : ∀ root st entries file n r s,
  entered fs matcher top n0 root (Fs.Dir st entries) →
  (file, n) ∈ entries →
  Fs.is_dir_node n = false →
  IgnoreMatcher.is_ignored fs matcher (join root file) = Ok false →
  calculate_stats rt fs (join root file) top = Ok r →
  I s → I (record_file s root r).

Lemma scan_files_invariant root st entries files s s' :
  entered fs matcher top n0 root (Fs.Dir st entries) →
  (∀ file, file ∈ files → ∃ n, (file, n) ∈ entries ∧ Fs.is_dir_node n = false) →
  I s →
  scan_files rt fs matcher top root files s = Ok s' → I s'.
Proof using Hstep.
  intros Hent. revert s. induction files as [|file files IH]; intros s Hfiles HI; simpl.
  - by intros [= <-].
  - destruct (scan_file rt fs matcher top root file s) as [s1|] eqn:E; simpl; [|done].
    apply IH; [intros f Hf; apply Hfiles, elem_of_cons; by right|].
    apply scan_file_cases in E as [[_ ->]|(Hig & r & Hr & ->)]; [done|].
    destruct (Hfiles file) as (n & Hin & Hn); [apply elem_of_cons; by left|].
    by eapply Hstep.
Qed.

Lemma walk_scan_invariant n root s s' :
  entered fs matcher top n0 root n → I s →
  Fs.walk_node (scan_directory rt fs matcher top) root n s = Ok s' → I s'.
Proof using Hstep.
  apply (walk_node_invariant _ I (entered fs matcher top n0)).
  intros root' st entries s0 dirs' s1 Hent HI. unfold scan_directory.
  destruct (keep_dirs fs matcher root' _) as [kept|] eqn:Ek; simpl; [|done].
  destruct (scan_files rt fs matcher top root' _ s0) as [s2|] eqn:Es; simpl; [|done].
  intros [= <- <-]. split.
  - eapply scan_files_invariant; [done| |done|done].
    intros file Hf. by apply walk_files_spec.
  - intros name st' entries' Hin Hk. eapply entered_snoc; [done|done|].
    by eapply keep_dirs_kept.
Qed.

End ScanInduction.

(** Induction on the files that [main] measures. *)
Lemma main_scan_induction rt fs script_dir target_dir matcher (I : scan → Prop) s :
  IgnoreMatcher.init fs script_dir (abspath (Fs.fs_cwd fs) target_dir) = Ok matcher →
  I empty_scan →
  (∀ n0 root st entries file n r s,
     Fs.resolve fs (abspath (Fs.fs_cwd fs) target_dir) = Some n0 →
     entered fs matcher (abspath (Fs.fs_cwd fs) target_dir) n0 root (Fs.Dir st entries) →
     (file, n) ∈ entries →
     Fs.is_dir_node n = false →
     IgnoreMatcher.is_ignored fs matcher (join root file) = Ok false →
     calculate_stats rt fs (join root file) (abspath (Fs.fs_cwd fs) target_dir) = Ok r →
     I s → I (record_file s root r)) →
  main rt fs script_dir target_dir = Ok s → I s.
Proof.
  intros Hinit H0 Hstep. unfold main.
  destruct (Fs.exists_ fs _); simpl; [|done]. rewrite Hinit. simpl.
  unfold Fs.walk.
  destruct (Fs.resolve fs (abspath _ _)) as [n0|] eqn:Hres; [|by intros [= <-]].
  apply (walk_scan_invariant rt fs matcher _ n0 I); [|constructor | done].
  intros. by eapply Hstep.
Qed.

Lemma calculate_stats_filepath rt fs filepath root_dir r :
  calculate_stats rt fs filepath root_dir = Ok r →
  FileStats.filepath r = Some filepath ∧ FileStats.count r = 1.
Proof.
  destruct (calculate_stats_cases rt fs filepath root_dir)
    as [rel [(e & _ & ->) | [(st & _ & _ & ->)
                            | (st & content & avg & cmax & fc & _ & _ & _ & _ & ->)]]];
    by intros [= <-].
Qed.

(** X5.  Every record in the list that [main] returns is the record that
    [calculate_stats] gives for an entry, not a directory, that
    [is_ignored] rejects, in the target directory or in a directory reached
    from it through entries that are directories and that [is_ignored]
    rejects, one after the other: nothing ignored is measured and nothing
    below an ignored directory is measured.  The folder subtotals are
    keyed by such directories only. *)
Theorem scan_measures_only_what_is_not_ignored
    rt fs script_dir target_dir matcher n0 s :
  IgnoreMatcher.init fs script_dir (abspath (Fs.fs_cwd fs) target_dir) = Ok matcher →
  main rt fs script_dir target_dir = Ok s →
  let top := abspath (Fs.fs_cwd fs) target_dir in
  Fs.resolve fs top = Some n0 →
  (∀ r, r ∈ all_file_details s →
        ∃ root st entries file n,
          entered fs matcher top n0 root (Fs.Dir st entries)
          ∧ (file, n) ∈ entries
          ∧ Fs.is_dir_node n = false
          ∧ IgnoreMatcher.is_ignored fs matcher (join root file) = Ok false
          ∧ calculate_stats rt fs (join root file) top = Ok r
          ∧ FileStats.filepath r = Some (join root file))
  ∧ (∀ root folder, folder_stats_map s !! root = Some folder →
                    ∃ st entries, entered fs matcher top n0 root (Fs.Dir st entries)).
Proof.
  intros Hinit Hmain top Hres.
  apply (main_scan_induction rt fs script_dir target_dir matcher
           (λ s, (∀ r, r ∈ all_file_details s →
                    ∃ root st entries file n,
                      entered fs matcher top n0 root (Fs.Dir st entries)
                      ∧ (file, n) ∈ entries
                      ∧ Fs.is_dir_node n = false
                      ∧ IgnoreMatcher.is_ignored fs matcher (join root file) = Ok false
                      ∧ calculate_stats rt fs (join root file) top = Ok r
                      ∧ FileStats.filepath r = Some (join root file))
                 ∧ (∀ root folder, folder_stats_map s !! root = Some folder →
                      ∃ st entries, entered fs matcher top n0 root (Fs.Dir st entries)))
           s Hinit); [| |done].
  - split; [intros r Hr; by apply elem_of_nil in Hr|].
    intros root folder. unfold empty_scan. simpl. by rewrite lookup_empty.
  - intros n1 root st entries file n r s0 Hres1 Hent Hin Hn Hig Hr [Hd Hf].
    fold top in Hres1. rewrite Hres in Hres1. injection Hres1 as <-. split.
    + intros r' [Hr'|Hr']%elem_of_app; [auto|].
      apply list_elem_of_singleton in Hr' as ->. exists root, st, entries, file, n.
      repeat split; try done. by apply calculate_stats_filepath in Hr as [? _].
    + intros root' folder. simpl. rewrite lookup_insert.
      case_decide as E; [intros _; subst; by exists st, entries | apply Hf].
Qed.

Lemma scan_measures_only_what_is_not_ignored_witness :
  ∃ s, main Examples.plain_runtime Examples.tree_fs (lit "/tool") (lit "/proj") = Ok s
       ∧ ∀ r, r ∈ all_file_details s →
              FileStats.filepath r = Some (lit "/proj/.analyzerignore")
              ∨ FileStats.filepath r = Some (lit "/proj/src/main.py").
Proof.
  eexists. split; [vm_compute; reflexivity|]. intros r Hr.
  destruct (proj1 (scan_measures_only_what_is_not_ignored Examples.plain_runtime
              Examples.tree_fs (lit "/tool") (lit "/proj") Examples.tree_matcher
              Examples.tree_project _
              ltac:(vm_compute; reflexivity) ltac:(vm_compute; reflexivity)
              ltac:(vm_compute; reflexivity)) r Hr)
    as (root & st & entries & file & n & Hent & Hin & Hn & Hig & _ & ->).
  clear Hr. vm_compute in Hent.
  inversion Hent as [|? ? ? name st1 es1 ? ? Hin1 Hig1 Hent1]; subst; clear Hent.
  - left. repeat (apply elem_of_cons in Hin as [[= -> ->]|Hin]);
      try (by apply elem_of_nil in Hin); try (exfalso; vm_compute in Hn; discriminate Hn).
    vm_compute; reflexivity.
  - repeat (apply elem_of_cons in Hin1 as [[= -> -> ->]|Hin1]);
      try (by apply elem_of_nil in Hin1).
    + inversion Hent1 as [|? ? ? name2 st2 es2 ? ? Hin2 Hig2 Hent2]; subst; clear Hent1.
      * right. repeat (apply elem_of_cons in Hin as [[= -> ->]|Hin]);
          try (by apply elem_of_nil in Hin);
          try (exfalso; vm_compute in Hn; discriminate Hn).
        vm_compute; reflexivity.
      * repeat (apply elem_of_cons in Hin2 as [[=]|Hin2]). by apply elem_of_nil in Hin2.
    + vm_compute in Hig1. discriminate.
Defined.

(** ** The scan misses nothing *)

Section ScanGrowth.
Variables (rt : runtime) (fs : Fs.filesystem) (matcher : IgnoreMatcher.t) (top : str).
Variable P : scan → Prop.
Hypothesis Hkeep : ∀ s root r, P s → P (record_file s root r).

Lemma scan_files_grows root files s s' :
  scan_files rt fs matcher top root files s = Ok s' → P s → P s'.
Proof using Hkeep.
  revert s. induction files as [|file files IH]; intros s; simpl; [by intros [= <-]|].
  destruct (scan_file rt fs matcher top root file s) as [s1|] eqn:E; simpl; [|done].
  intros Hs HP. apply (IH s1 Hs).
  apply scan_file_cases in E as [[_ ->]|(_ & r & _ & ->)]; [done | by apply Hkeep].
Qed.

Lemma walk_grows n root s s' :
  Fs.walk_node (scan_directory rt fs matcher top) root n s = Ok s' → P s → P s'.
Proof using Hkeep.
  intros Hw HP. revert Hw.
  apply (walk_node_invariant _ P (λ _ _, True)); [|done|done].
  intros root' st entries s0 dirs' s1 _ HP0. unfold scan_directory.
  destruct (keep_dirs fs matcher root' _) as [kept|]; simpl; [|done].
  destruct (scan_files rt fs matcher top root' _ s0) as [s2|] eqn:Es; simpl; [|done].
  intros [= <- <-]. split; [by eapply scan_files_grows | done].
Qed.

Lemma walk_entries_grows root dirs es s s' :
  walk_entries (scan_directory rt fs matcher top) root dirs es s = Ok s' → P s → P s'.
Proof using Hkeep.
  revert s. induction es as [|[name n] es IH]; intros s; simpl; [by intros [= <-]|].
  destruct (Fs.is_dir_node n && bool_decide (name ∈ dirs)); [|apply IH].
  destruct (Fs.walk_node _ (join root name) n s) as [s1|] eqn:E; simpl; [|done].
  intros Hs HP. apply (IH s1 Hs). by eapply walk_grows.
Qed.

End ScanGrowth.

Lemma walk_entries_reaches rt fs matcher top root dirs es name n s s' :
  walk_entries (scan_directory rt fs matcher top) root dirs es s = Ok s' →
  (name, n) ∈ es → Fs.is_dir_node n = true → name ∈ dirs →
  ∃ sa sb, Fs.walk_node (scan_directory rt fs matcher top) (join root name) n sa = Ok sb
           ∧ ∀ P : scan → Prop,
               (∀ s root r, P s → P (record_file s root r)) → P sb → P s'.
Proof.
  intros Hw Hin Hdir Hkept. revert s Hw.
  induction es as [|[name' n'] es IH]; intros s; [by apply elem_of_nil in Hin|].
  simpl. apply elem_of_cons in Hin as [[= <- <-]|Hin].
  - rewrite Hdir, bool_decide_eq_true_2 by done. simpl.
    destruct (Fs.walk_node _ (join root name) n s) as [s1|] eqn:E; simpl; [|done].
    intros Hs. exists s, s1. split; [done|]. intros P HP HP1.
    by eapply (walk_entries_grows rt fs matcher top P HP).
  - destruct (Fs.is_dir_node n' && bool_decide (name' ∈ dirs)); [|by apply IH].
    destruct (Fs.walk_node _ (join root name') n' s) as [s1|]; simpl; [|done].
    by apply IH.
Qed.

Lemma scan_files_records rt fs matcher top root files file s s' :
  scan_files rt fs matcher top root files s = Ok s' →
  file ∈ files →
  IgnoreMatcher.is_ignored fs matcher (join root file) = Ok false →
  ∃ r, calculate_stats rt fs (join root file) top = Ok r
       ∧ r ∈ all_file_details s'
       ∧ is_Some (folder_stats_map s' !! root).
Proof.
  intros Hs Hin Hig. revert s Hs.
  induction files as [|x files IH]; intros s; [by apply elem_of_nil in Hin|]. simpl.
  destruct (scan_file rt fs matcher top root x s) as [s1|] eqn:E; simpl; [|done].
  intros Hs. apply elem_of_cons in Hin as [->|Hin]; [|by eapply IH].
  apply scan_file_cases in E as [[E _]|(_ & r & Hr & ->)]; [congruence|].
  exists r. split; [done|].
  apply (scan_files_grows rt fs matcher top
           (λ s, r ∈ all_file_details s ∧ is_Some (folder_stats_map s !! root)))
    with (root := root) (files := files) (s := record_file s root r); [|done|].
  - intros s0 root0 r0 [H1 H2]. simpl. split.
    + apply elem_of_app. by left.
    + apply lookup_insert_is_Some'. by right.
  - simpl. split.
    + apply elem_of_app. right. by apply list_elem_of_singleton.
    + apply lookup_insert_is_Some'. by left.
Qed.

Lemma walk_records rt fs matcher top root0 n0 root st entries :
  entered fs matcher root0 n0 root (Fs.Dir st entries) →
  ∀ file n s s',
    Fs.walk_node (scan_directory rt fs matcher top) root0 n0 s = Ok s' →
    (file, n) ∈ entries → Fs.is_dir_node n = false →
    IgnoreMatcher.is_ignored fs matcher (join root file) = Ok false →
    ∃ r, calculate_stats rt fs (join root file) top = Ok r
         ∧ r ∈ all_file_details s'
         ∧ is_Some (folder_stats_map s' !! root).
Proof.
  intros Hent file n. remember (Fs.Dir st entries) as target eqn:Ht.
  induction Hent as [root0 n0|root0 st0 entries0 name st1 es1 root n' Hin1 Hig1 Hent IH];
    intros s s' Hw Hin Hfile Hig.
  - subst n0. rewrite walk_node_dir in Hw. unfold scan_directory at 1 in Hw.
    destruct (keep_dirs fs matcher root0 _) as [kept|]; simpl in Hw; [|done].
    destruct (scan_files rt fs matcher top root0 _ s) as [s1|] eqn:Es; simpl in Hw; [|done].
    destruct (scan_files_records _ _ _ _ _ _ file _ _ Es) as (r & Hr & Hrec); [|done|].
    { apply walk_files_spec. by exists n. }
    exists r. split; [done|].
    apply (walk_entries_grows rt fs matcher top
             (λ s, r ∈ all_file_details s ∧ is_Some (folder_stats_map s !! root0)))
      with (root := root0) (dirs := kept) (es := entries) (s := s1); [|done|done].
    intros s0 root1 r0 [H1 H2]. simpl. split.
    + apply elem_of_app. by left.
    + apply lookup_insert_is_Some'. by right.
  - rewrite walk_node_dir in Hw. unfold scan_directory at 1 in Hw.
    destruct (keep_dirs fs matcher root0 _) as [kept|] eqn:Ek; simpl in Hw; [|done].
    destruct (scan_files rt fs matcher top root0 _ s) as [s1|]; simpl in Hw; [|done].
    assert (Hkept : name ∈ kept).
    { apply (keep_dirs_complete _ _ _ _ _ _ Ek); [|done].
      apply walk_dirs_spec. by exists (Fs.Dir st1 es1). }
    destruct (walk_entries_reaches _ _ _ _ _ _ _ _ _ _ _ Hw Hin1 eq_refl Hkept)
      as (sa & sb & Hsub & Hgrow).
    destruct (IH Ht sa sb Hsub Hin Hfile Hig) as (r & Hr & Hrec).
    exists r. split; [done|].
    apply (Hgrow (λ s, r ∈ all_file_details s ∧ is_Some (folder_stats_map s !! root)));
      [|done].
    intros s0 root1 r0 [H1 H2]. simpl. split.
    + apply elem_of_app. by left.
    + apply lookup_insert_is_Some'. by right.
Qed.

(** X6.  The scan misses nothing: when [main] returns, every entry that is
    not a directory and that [is_ignored] rejects, in the target directory
    or in a directory reached from it through entries that are directories
    proper (not symbolic links, and open to listing) and that [is_ignored]
    rejects, has its record, as [calculate_stats] gives it, in the list of
    records, and its directory has a folder subtotal. *)
Theorem scan_measures_every_file_kept
    rt fs script_dir target_dir matcher s n0 root st entries file n :
  IgnoreMatcher.init fs script_dir (abspath (Fs.fs_cwd fs) target_dir) = Ok matcher →
  main rt fs script_dir target_dir = Ok s →
  let top := abspath (Fs.fs_cwd fs) target_dir in
  Fs.resolve fs top = Some n0 →
  entered fs matcher top n0 root (Fs.Dir st entries) →
  (file, n) ∈ entries →
  Fs.is_dir_node n = false →
  IgnoreMatcher.is_ignored fs matcher (join root file) = Ok false →
  ∃ r, calculate_stats rt fs (join root file) top = Ok r
       ∧ FileStats.filepath r = Some (join root file)
       ∧ r ∈ all_file_details s
       ∧ is_Some (folder_stats_map s !! root).
Proof.
  intros Hinit Hmain top Hres Hent Hin Hfile Hig. unfold main in Hmain.
  destruct (Fs.exists_ fs _); simpl in Hmain; [|done].
  rewrite Hinit in Hmain. simpl in Hmain. unfold Fs.walk in Hmain.
  fold top in Hmain. rewrite Hres in Hmain.
  destruct (walk_records rt fs matcher top top n0 root st entries Hent file n _ _
              Hmain Hin Hfile Hig) as (r & Hr & Hd & Hf).
  exists r. split; [done|]. split; [|done].
  by destruct (calculate_stats_filepath _ _ _ _ _ Hr).
Qed.

Lemma scan_measures_every_file_kept_witness :
  ∃ s, main Examples.plain_runtime Examples.tree_fs (lit "/tool") (lit "/proj") = Ok s
       ∧ ∃ r, r ∈ all_file_details s
              ∧ FileStats.filepath r = Some (lit "/proj/src/main.py")
              ∧ is_Some (folder_stats_map s !! lit "/proj/src").
Proof.
  eexists. split; [vm_compute; reflexivity|].
  destruct (scan_measures_every_file_kept Examples.plain_runtime
              Examples.tree_fs (lit "/tool") (lit "/proj") Examples.tree_matcher _
              Examples.tree_project
              (lit "/proj/src") (Examples.ok_stat 4096 8)
              [(lit "main.py", Examples.text_file "x = 1" ["x = 1"%string])]
              (lit "main.py") (Examples.text_file "x = 1" ["x = 1"%string])
              ltac:(vm_compute; reflexivity) ltac:(vm_compute; reflexivity)
              ltac:(vm_compute; reflexivity))
    as (r & _ & Hp & Hin & Hf).
  - apply (entered_below _ _ _ _ _ (lit "src") (Examples.ok_stat 4096 8)
             [(lit "main.py", Examples.text_file "x = 1" ["x = 1"%string])]).
    + apply elem_of_cons. right. apply elem_of_cons. by left.
    + vm_compute; reflexivity.
    + apply entered_here.
  - apply elem_of_cons. by left.
  - reflexivity.
  - vm_compute; reflexivity.
  - exists r. by repeat split.
Defined.

(** ** Totals of a scan *)

Lemma skipped_count_cons r l :
  skipped_count (r :: l)
  = Z.b2z (truthy (FileStats.skipped r)) + skipped_count l.
Proof.
  unfold skipped_count, len. rewrite filter_cons.
  case_decide as H; [rewrite H|apply not_true_is_false in H; rewrite H]; simpl; lia.
Qed.

Lemma skipped_count_nonneg l : 0 ≤ skipped_count l.
Proof. unfold skipped_count, len. lia. Qed.

Lemma merge_all_skipped total l :
  skip_value (FileStats.skipped (merge_all total l))
  = skip_value (FileStats.skipped total) + skipped_count l.
Proof.
  unfold merge_all. revert total. induction l as [|r l IH]; intros total; simpl.
  - unfold skipped_count, len. simpl. lia.
  - rewrite IH, skipped_count_cons. simpl.
    destruct (truthy (FileStats.skipped r)); simpl; lia.
Qed.

Lemma merge_all_snoc total l r :
  merge_all total (l ++ [r]) = FileStats.add (merge_all total l) r.
Proof. unfold merge_all. by rewrite fold_left_app. Qed.

Lemma total_of_ones f l : Forall (λ r, f r = 1) l → total_of f l = len l.
Proof.
  unfold total_of, len. induction 1 as [|r l Hr _ IH]; simpl; [done|]. rewrite IH, Hr. lia.
Qed.

(** X7.  Folding records into a total counts the skipped ones: the value
    of [skipped] grows by the number of skipped records folded in.  The
    attribute keeps its initial value, a [bool] on a fresh total, as long
    as no skipped record is met, and is an integer from the first one
    on. *)
Theorem merge_counts_skipped_records total l :
  skip_value (FileStats.skipped (merge_all total l))
  = skip_value (FileStats.skipped total) + skipped_count l
  ∧ (skipped_count l = 0 →
     FileStats.skipped (merge_all total l) = FileStats.skipped total)
  ∧ (0 < skipped_count l →
     FileStats.skipped (merge_all total l)
     = Tally (skip_value (FileStats.skipped total) + skipped_count l)).
Proof.
  split; [apply merge_all_skipped|].
  unfold merge_all. revert total. induction l as [|r l IH]; intros total.
  - split; [done|]. unfold skipped_count, len. simpl. lia.
  - rewrite skipped_count_cons. pose proof (skipped_count_nonneg l) as Hl.
    destruct (IH (FileStats.add total r)) as [IH0 IH1]. simpl in *.
    destruct (truthy (FileStats.skipped r)); simpl in *.
    + split; [lia|]. intros _.
      destruct (decide (skipped_count l = 0)) as [E|E].
      * rewrite IH0 by done. rewrite E. unfold skip_incr. f_equal; lia.
      * rewrite IH1 by lia. unfold skip_incr. simpl. f_equal; lia.
    + split; [intros ?; apply IH0; lia | intros ?; apply IH1; lia].
Qed.

Lemma merge_counts_skipped_records_witness :
  ∃ A B,
    calculate_stats Examples.plain_runtime (Examples.scenario [])
      (lit "/proj/a.txt") (lit "/proj") = Ok A
    ∧ calculate_stats Examples.plain_runtime (Examples.scenario [])
        (lit "/proj/img.png") (lit "/proj") = Ok B
    ∧ FileStats.skipped (merge_all (blank_record None None) [A; A]) = Flag false
    ∧ FileStats.skipped (merge_all (blank_record None None) [B; A; B]) = Tally 2.
Proof.
  do 2 eexists. split; [vm_compute; reflexivity|]. split; [vm_compute; reflexivity|].
  split.
  - match goal with |- FileStats.skipped (merge_all ?t ?l) = _ =>
      apply (proj1 (proj2 (merge_counts_skipped_records t l))) end.
    reflexivity.
  - match goal with |- FileStats.skipped (merge_all ?t ?l) = _ =>
      rewrite (proj2 (proj2 (merge_counts_skipped_records t l))) by reflexivity end.
    reflexivity.
Defined.

(** X8.  When [main] returns, the project total is the fold of
    [FileStats.add] over the list of records, in the order of the list,
    starting from a fresh total; its file count is the length of the list,
    each record counting for one, and the value of its [skipped] attribute
    is the number of skipped records of the list. *)
Theorem total_is_the_fold_of_the_records rt fs script_dir target_dir s :
  main rt fs script_dir target_dir = Ok s →
  total_stats s = merge_all (blank_record None None) (all_file_details s)
  ∧ Forall (λ r, measured r ∧ FileStats.count r = 1) (all_file_details s)
  ∧ FileStats.count (total_stats s) = len (all_file_details s)
  ∧ skip_value (FileStats.skipped (total_stats s)) = skipped_count (all_file_details s).
Proof.
  intros Hmain.
  destruct (matcher_init_returns fs script_dir (abspath (Fs.fs_cwd fs) target_dir))
    as [patterns Hinit].
  assert (H : total_stats s = merge_all (blank_record None None) (all_file_details s)
              ∧ Forall (λ r, measured r ∧ FileStats.count r = 1) (all_file_details s)).
  { apply (main_scan_induction rt fs script_dir target_dir _
             (λ s, total_stats s = merge_all (blank_record None None) (all_file_details s)
                   ∧ Forall (λ r, measured r ∧ FileStats.count r = 1) (all_file_details s))
             s Hinit); [by split | | done].
    intros n0 root st entries file n r s0 _ _ _ _ _ Hr [Ht Hf]. simpl. split.
    - by rewrite merge_all_snoc, Ht.
    - apply Forall_app. split; [done|]. constructor; [|done]. split.
      + by do 4 eexists.
      + by apply calculate_stats_filepath in Hr as [_ ?]. }
  destruct H as [Ht Hf]. split; [done|]. split; [done|]. rewrite Ht. split.
  - rewrite (merge_all_total FileStats.count) by done. simpl.
    apply total_of_ones. eapply Forall_impl; [done|]. by intros ? [_ ?].
  - by rewrite merge_all_skipped.
Qed.

Lemma total_is_the_fold_of_the_records_witness :
  ∃ s, main Examples.plain_runtime (Examples.scenario []) (lit "/tool") (lit "/proj") = Ok s
       ∧ total_stats s = merge_all (blank_record None None) (all_file_details s)
       ∧ FileStats.count (total_stats s) = len (all_file_details s).
Proof.
  eexists. split; [vm_compute; reflexivity|].
  match goal with |- total_stats ?s = _ ∧ _ =>
    pose proof (total_is_the_fold_of_the_records Examples.plain_runtime
                  (Examples.scenario []) (lit "/tool") (lit "/proj") s
                  ltac:(vm_compute; reflexivity)) as (H1 & _ & H2 & _)
  end.
  by split.
Defined.

(** ** Folder subtotals *)

Lemma folder_total_insert (f : FileStats.t → Z) (m : gmap str FileStats.t) k v :
  folder_total f (<[k := v]> m) = f v + folder_total f (delete k m).
Proof.
  unfold folder_total. rewrite <- insert_delete_eq.
  rewrite map_fold_insert_L; [done| |apply lookup_delete_eq].
  intros. lia.
Qed.

Lemma folder_total_lookup (f : FileStats.t → Z) (m : gmap str FileStats.t) k :
  folder_total f m
  = match m !! k with Some v => f v | None => 0 end + folder_total f (delete k m).
Proof.
  destruct (m !! k) as [v|] eqn:E.
  - rewrite <- (insert_delete_id m k v E) at 1. rewrite folder_total_insert.
    by rewrite delete_delete_eq.
  - by rewrite delete_id.
Qed.

(** X9.  When [main] returns, the folder subtotals partition the project
    total: for the file count, the size, the disk usage and the line and
    character counts, the sum over the folders is the value of the total;
    and every folder of the table holds at least one file. *)
Theorem folder_subtotals_sum_to_total rt fs script_dir target_dir s :
  main rt fs script_dir target_dir = Ok s →
  folder_total FileStats.count (folder_stats_map s) = FileStats.count (total_stats s)
  ∧ folder_total FileStats.size (folder_stats_map s) = FileStats.size (total_stats s)
  ∧ folder_total FileStats.disk_usage (folder_stats_map s)
    = FileStats.disk_usage (total_stats s)
  ∧ folder_total FileStats.line_count (folder_stats_map s)
    = FileStats.line_count (total_stats s)
  ∧ folder_total FileStats.char_count (folder_stats_map s)
    = FileStats.char_count (total_stats s)
  ∧ ∀ root folder, folder_stats_map s !! root = Some folder → 1 ≤ FileStats.count folder.
Proof.
  intros Hmain.
  destruct (matcher_init_returns fs script_dir (abspath (Fs.fs_cwd fs) target_dir))
    as [patterns Hinit].
  assert (H : (∀ f, additive f → folder_total f (folder_stats_map s) = f (total_stats s))
              ∧ ∀ root folder, folder_stats_map s !! root = Some folder →
                               1 ≤ FileStats.count folder).
  { apply (main_scan_induction rt fs script_dir target_dir _
             (λ s, (∀ f, additive f → folder_total f (folder_stats_map s) = f (total_stats s))
                   ∧ ∀ root folder, folder_stats_map s !! root = Some folder →
                                    1 ≤ FileStats.count folder)
             s Hinit); [| |done].
    - split.
      + intros f [Hf0 _]. unfold folder_total, empty_scan. simpl.
        by rewrite map_fold_empty.
      + intros root folder. unfold empty_scan. simpl. by rewrite lookup_empty.
    - intros n0 root st entries file n r s0 _ _ _ _ _ Hr [Hsum Hcount]. split.
      + intros f Hf. pose proof Hf as [Hf0 Hadd]. simpl.
        rewrite folder_total_insert, !Hadd, <- (Hsum f Hf).
        rewrite (folder_total_lookup f (folder_stats_map s0) root).
        destruct (folder_stats_map s0 !! root); simpl; [lia|]. rewrite Hf0. lia.
      + intros root' folder. simpl. rewrite lookup_insert.
        case_decide as E; [|apply Hcount]. intros [= <-]. simpl.
        apply calculate_stats_filepath in Hr as [_ ->].
        destruct (folder_stats_map s0 !! root) as [v|] eqn:Ev; simpl; [|done].
        specialize (Hcount _ _ Ev). lia. }
  destruct H as [Hsum Hcount].
  repeat split; try (apply Hsum; by split). done.
Qed.

Lemma folder_subtotals_sum_to_total_witness :
  ∃ s, main Examples.plain_runtime (Examples.scenario []) (lit "/tool") (lit "/proj") = Ok s
       ∧ folder_total FileStats.size (folder_stats_map s) = 19.
Proof.
  eexists. split; [vm_compute; reflexivity|].
  match goal with |- folder_total _ (folder_stats_map ?s) = _ =>
    rewrite (proj1 (proj2 (folder_subtotals_sum_to_total Examples.plain_runtime
                  (Examples.scenario []) (lit "/tool") (lit "/proj") s
                  ltac:(vm_compute; reflexivity))))
  end.
  reflexivity.
Defined.

(** X10.  When the target is an empty directory, or exists without being
    a directory, [main] returns without error a scan with a fresh total
    (every count zero), no record and no folder subtotal. *)
Theorem empty_target_gives_empty_scan rt fs script_dir target_dir n :
  Fs.resolve fs (abspath (Fs.fs_cwd fs) target_dir) = Some n →
  (∃ d, n = Fs.File d) ∨ (∃ st, n = Fs.Dir st []) →
  main rt fs script_dir target_dir = Ok empty_scan.
Proof.
  intros Hres Hn. unfold main, Fs.exists_, Fs.walk. rewrite Hres.
  destruct (matcher_init_returns fs script_dir (abspath (Fs.fs_cwd fs) target_dir))
    as [patterns ->].
  destruct Hn as [[d ->]|[st ->]]; reflexivity.
Qed.

Lemma empty_target_gives_empty_scan_witness :
  main Examples.plain_runtime (Examples.build_fs false "/") (lit "/tool") (lit "proj")
  = Ok empty_scan.
Proof.
  apply (empty_target_gives_empty_scan Examples.plain_runtime (Examples.build_fs false "/")
           (lit "/tool") (lit "proj")
           (Fs.Dir (Examples.ok_stat 4096 8) [])).
  - vm_compute. reflexivity.
  - right. by eexists.
Defined.

(** ** Merging tables *)

Lemma fold_left_comm_perm {A B} (g : B → A → B) (l1 l2 : list A) :
  (∀ b x y, g (g b x) y = g (g b y) x) →
  l1 ≡ₚ l2 → ∀ b, fold_left g l1 b = fold_left g l2 b.
Proof.
  intros Hg. induction 1 as [|x l1 l2 _ IH|x y l|l1 l2 l3 _ IH1 _ IH2]; intros b; simpl.
  - done.
  - apply IH.
  - by rewrite Hg.
  - by rewrite IH1.
Qed.

Lemma merge_all_field {A B} (proj : FileStats.t → B) (field : FileStats.t → A)
    (g : B → A → B) total l :
  (∀ a b, proj (FileStats.add a b) = g (proj a) (field b)) →
  proj (merge_all total l) = fold_left g (field <$> l) (proj total).
Proof.
  intros H. unfold merge_all. revert total.
  induction l as [|r l IH]; intros total; simpl; [done|]. by rewrite IH, H.
Qed.

Lemma counter_update_swap (a x y : Counter) :
  counter_update (counter_update a x) y = counter_update (counter_update a y) x.
Proof.
  apply map_eq. intros k. unfold counter_update. rewrite !lookup_union_with.
  destruct (a !! k), (x !! k), (y !! k); simpl; try done; f_equal; lia.
Qed.

Lemma counter_get_update (a b : Counter) k :
  counter_get (counter_update a b) k = counter_get a k + counter_get b k.
Proof.
  unfold counter_get, counter_update. rewrite lookup_union_with.
  destruct (a !! k), (b !! k); simpl; lia.
Qed.

Lemma fold_app_perm (l1 l2 : list (list Z)) :
  l1 ≡ₚ l2 → ∀ b b', b ≡ₚ b' → fold_left app l1 b ≡ₚ fold_left app l2 b'.
Proof.
  induction 1 as [|x l1 l2 _ IH|x y l|l1 l2 l3 _ IH1 _ IH2]; intros b b' Hb; simpl.
  - done.
  - apply IH. by rewrite Hb.
  - assert (Hxy : (b ++ y) ++ x ≡ₚ (b' ++ x) ++ y).
    { rewrite Hb, <- !app_assoc. apply Permutation_app_head, Permutation_app_comm. }
    revert Hxy. generalize ((b ++ y) ++ x), ((b' ++ x) ++ y). clear.
    induction l as [|z l IH]; intros u v Huv; simpl; [done|]. apply IH. by rewrite Huv.
  - etrans; [by apply IH1 | by apply IH2].
Qed.

(** X11.  The word table, the extension table, the maximal complexity and
    the [skipped] attribute of a fold of [FileStats.add] over a list of
    records do not depend on the order of the list, and the line lengths
    collected are the same up to their order.  The count of a word in the
    merged table is the sum of its counts in the tables merged, a missing
    word counting zero. *)
Theorem tables_independent_of_order total l1 l2 :
  l1 ≡ₚ l2 →
  FileStats.word_counter (merge_all total l1) = FileStats.word_counter (merge_all total l2)
  ∧ FileStats.extensions (merge_all total l1) = FileStats.extensions (merge_all total l2)
  ∧ FileStats.complexity_max (merge_all total l1)
    = FileStats.complexity_max (merge_all total l2)
  ∧ FileStats.skipped (merge_all total l1) = FileStats.skipped (merge_all total l2)
  ∧ FileStats.lines_lengths (merge_all total l1)
    ≡ₚ FileStats.lines_lengths (merge_all total l2)
  ∧ ∀ w, counter_get (FileStats.word_counter (merge_all total l1)) w
         = counter_get (FileStats.word_counter total) w
           + total_of (λ r, counter_get (FileStats.word_counter r) w) l1.
Proof.
  intros Hperm. repeat split.
  - rewrite !(merge_all_field FileStats.word_counter FileStats.word_counter counter_update)
      by done.
    apply fold_left_comm_perm; [apply counter_update_swap | by apply fmap_Permutation].
  - rewrite !(merge_all_field FileStats.extensions FileStats.extensions counter_update)
      by done.
    apply fold_left_comm_perm; [apply counter_update_swap | by apply fmap_Permutation].
  - rewrite !(merge_all_field FileStats.complexity_max FileStats.complexity_max
                (λ a c, if c >? a then c else a)) by done.
    apply fold_left_comm_perm; [|by apply fmap_Permutation].
    intros b x y. destruct (Z.gtb_spec x b), (Z.gtb_spec y b);
      repeat match goal with |- context [?u >? ?v] => destruct (Z.gtb_spec u v) end; lia.
  - rewrite !(merge_all_field FileStats.skipped (λ r, truthy (FileStats.skipped r))
                (λ k b, if b then skip_incr k else k)) by done.
    apply fold_left_comm_perm; [|by apply fmap_Permutation].
    by intros b [] [].
  - rewrite !(merge_all_field FileStats.lines_lengths FileStats.lines_lengths app) by done.
    apply fold_app_perm; [by apply fmap_Permutation | done].
  - intros w.
    apply (merge_all_total (λ r, counter_get (FileStats.word_counter r) w)).
    intros a b. apply counter_get_update.
Qed.

Lemma tables_independent_of_order_witness :
  ∃ A B,
    calculate_stats Examples.plain_runtime (Examples.scenario [])
      (lit "/proj/a.txt") (lit "/proj") = Ok A
    ∧ calculate_stats Examples.plain_runtime Examples.hello_fs
        (lit "/proj/hello.txt") (lit "/proj") = Ok B
    ∧ FileStats.word_counter (merge_all (blank_record None None) [A; B])
      = FileStats.word_counter (merge_all (blank_record None None) [B; A]).
Proof.
  do 2 eexists. split; [vm_compute; reflexivity|]. split; [vm_compute; reflexivity|].
  match goal with |- FileStats.word_counter (merge_all ?t ?l1) = FileStats.word_counter (merge_all ?t ?l2) =>
    apply (proj1 (tables_independent_of_order t l1 l2 (Permutation_swap _ _ _)))
  end.
Defined.

Lemma counter_update_empty_r (a : Counter) : counter_update a ∅ = a.
Proof.
  apply map_eq. intros k. unfold counter_update. rewrite lookup_union_with, lookup_empty.
  by destruct (a !! k).
Qed.

Lemma counter_update_empty_l (a : Counter) : counter_update ∅ a = a.
Proof.
  apply map_eq. intros k. unfold counter_update. rewrite lookup_union_with, lookup_empty.
  by destruct (a !! k).
Qed.

(** X12.  Merging a fresh, empty [FileStats()] into a record whose maximal
    complexity is not negative leaves the record unchanged; merging a
    record into a fresh [FileStats()] gives a total with the counts, sizes
    and tables of the record, the larger of zero and its maximal
    complexity, and one or zero as [skipped] according to whether the
    record is skipped. *)
Theorem add_and_the_empty_total r :
  (0 ≤ FileStats.complexity_max r → FileStats.add r (blank_record None None) = r)
  ∧ (let t := FileStats.add (blank_record None None) r in
     FileStats.count t = FileStats.count r
     ∧ FileStats.size t = FileStats.size r
     ∧ FileStats.disk_usage t = FileStats.disk_usage r
     ∧ FileStats.char_count t = FileStats.char_count r
     ∧ FileStats.char_count_no_space t = FileStats.char_count_no_space r
     ∧ FileStats.line_count t = FileStats.line_count r
     ∧ FileStats.word_counter t = FileStats.word_counter r
     ∧ FileStats.lines_lengths t = FileStats.lines_lengths r
     ∧ FileStats.extensions t = FileStats.extensions r
     ∧ FileStats.complexity_max t = Z.max 0 (FileStats.complexity_max r)
     ∧ skip_value (FileStats.skipped t) = Z.b2z (truthy (FileStats.skipped r))).
Proof.
  split.
  - intros Hc. destruct r. unfold FileStats.add. simpl in *.
    rewrite !counter_update_empty_r, !Z.add_0_r, app_nil_r.
    destruct (Z.gtb_spec 0 complexity_max); [lia|done].
  - simpl. rewrite !counter_update_empty_l.
    repeat split.
    + destruct (Z.gtb_spec (FileStats.complexity_max r) 0); lia.
    + by destruct (truthy (FileStats.skipped r)).
Qed.

Lemma add_and_the_empty_total_witness :
  FileStats.add (blank_record (Some (lit "/proj/a.txt")) (Some (lit "a.txt")))
                (blank_record None None)
  = blank_record (Some (lit "/proj/a.txt")) (Some (lit "a.txt")).
Proof.
  apply (proj1 (add_and_the_empty_total
                  (blank_record (Some (lit "/proj/a.txt")) (Some (lit "a.txt"))))).
  simpl. lia.
Defined.

(** ** The extension table and the CSV report *)

Lemma counter_first_key_singleton k v : counter_first_key {[k := v]} = Ok k.
Proof. unfold counter_first_key. by rewrite map_to_list_singleton. Qed.


Lemma calculate_stats_extensions rt fs filepath root_dir r :
  calculate_stats rt fs filepath root_dir = Ok r →
  match Fs.stat fs filepath with
  | Ok st =>
      let ext := str_lower rt (splitext filepath).2 in
      FileStats.extensions r
      = {[(if bool_decide (ext = []) then lit "no_ext" else ext) := 1]}
      ∧ FileStats.size r = Fs.st_size st
      ∧ FileStats.disk_usage r
        = match Fs.st_blocks st with
          | Some blocks => blocks * 512
          | None => ceil_div (Fs.st_size st) BLOCK_SIZE * BLOCK_SIZE
          end
  | Raise _ => FileStats.extensions r = ∅ ∧ FileStats.size r = 0 ∧ FileStats.disk_usage r = 0
  end.
Proof.
  destruct (calculate_stats_cases rt fs filepath root_dir)
    as [rel [(e & -> & ->) | [(st & -> & _ & ->)
                             | (st & content & avg & cmax & fc & -> & _ & _ & _ & ->)]]];
    intros [= <-]; simpl; try done;
    unfold counter_incr, counter_get; rewrite lookup_empty; simpl;
    by rewrite insert_empty.
Qed.

(** X13.  For a file that [os.stat] can examine, the extension table of the
    record has exactly one key, counted once: the lower-cased extension of
    the path, or [no_ext] when there is none.  This key is the [ext] entry
    of the dictionary and the third cell of the CSV row, which has nine
    cells. *)
Theorem extension_table_has_one_key rt fs filepath root_dir st :
  Fs.stat fs filepath = Ok st →
  let ext := str_lower rt (splitext filepath).2 in
  let key := if bool_decide (ext = []) then lit "no_ext" else ext in
  ∃ r, calculate_stats rt fs filepath root_dir = Ok r
       ∧ FileStats.extensions r = {[key := 1]}
       ∧ FileStats.d_ext (FileStats.to_dict rt r) = key
       ∧ ∃ row, csv_row rt r = Ok row ∧ row !! 2%nat = Some (CStr key) ∧ length row = 9%nat.
Proof.
  intros Hst ext key.
  destruct (calculate_stats_returns rt fs filepath root_dir) as (r & Hr & _).
  exists r. split; [done|].
  pose proof (calculate_stats_extensions _ _ _ _ _ Hr) as H. rewrite Hst in H.
  destruct H as (Hext & _). fold ext key in Hext. split; [done|].
  unfold FileStats.to_dict, csv_row. simpl. rewrite Hext, counter_first_key_singleton.
  split; [done|]. by eexists.
Qed.

Lemma extension_table_has_one_key_witness :
  ∃ r, calculate_stats Examples.plain_runtime (Examples.scenario [])
         (lit "/proj/img.png") (lit "/proj") = Ok r
       ∧ FileStats.extensions r = {[lit ".png" := 1]}.
Proof.
  destruct (extension_table_has_one_key Examples.plain_runtime (Examples.scenario [])
              (lit "/proj/img.png") (lit "/proj")
              {| Fs.st_size := 8; Fs.st_blocks := Some 8 |} ltac:(vm_compute; reflexivity))
    as (r & Hr & Hext & _).
  by exists r.
Defined.







(** ** Sizes *)

(** X15.  For a file that [os.stat] can examine, the record has the size
    reported and, as disk usage, 512 times the block count reported; on a
    platform without block counts the disk usage of a file of less than
    2^53 bytes is its size rounded up to a multiple of 4096. *)
Theorem disk_usage_of_record rt fs filepath root_dir st :
  Fs.stat fs filepath = Ok st →
  ∃ r, calculate_stats rt fs filepath root_dir = Ok r
       ∧ FileStats.size r = Fs.st_size st
       ∧ (∀ blocks, Fs.st_blocks st = Some blocks →
                    FileStats.disk_usage r = blocks * 512)
       ∧ (Fs.st_blocks st = None → 0 ≤ Fs.st_size st < 2 ^ 53 →
          FileStats.disk_usage r mod 4096 = 0
          ∧ FileStats.size r ≤ FileStats.disk_usage r < FileStats.size r + 4096).
Proof.
  intros Hst.
  destruct (calculate_stats_returns rt fs filepath root_dir) as (r & Hr & _).
  exists r. split; [done|].
  pose proof (calculate_stats_extensions _ _ _ _ _ Hr) as H. rewrite Hst in H.
  destruct H as (_ & Hsize & Hdu). split; [done|]. rewrite Hsize, Hdu. split.
  - by intros blocks ->.
  - intros -> Hrange. unfold ceil_div, BLOCK_SIZE.
    pose proof (Z.div_mod (- Fs.st_size st) 4096 ltac:(lia)) as Hdm.
    pose proof (Z.mod_pos_bound (- Fs.st_size st) 4096 ltac:(lia)) as Hm.
    split; [|lia].
    replace (- (- Fs.st_size st / 4096) * 4096) with ((- (- Fs.st_size st / 4096)) * 4096)
      by lia.
    apply Z.mod_mul. lia.
Qed.

Lemma disk_usage_of_record_witness :
  ∃ r, calculate_stats Examples.plain_runtime (Examples.scenario [])
         (lit "/proj/a.txt") (lit "/proj") = Ok r
       ∧ FileStats.size r = 11
       ∧ FileStats.disk_usage r = 4096.
Proof.
  destruct (disk_usage_of_record Examples.plain_runtime (Examples.scenario [])
              (lit "/proj/a.txt") (lit "/proj")
              {| Fs.st_size := 11; Fs.st_blocks := Some 8 |} ltac:(vm_compute; reflexivity))
    as (r & Hr & Hsize & Hblocks & _).
  exists r. split; [done|]. split; [done|]. by rewrite (Hblocks 8).
Defined.

(** ** Line-length statistics *)

Lemma sorted_last_max (l : list Z) d :
  StronglySorted Z.le l → ∀ x, x ∈ l → x ≤ List.last l d.
Proof.
  induction 1 as [|a l Hs IH Ha]; intros x Hx; [by apply elem_of_nil in Hx|].
  destruct l as [|b l]; simpl.
  - apply list_elem_of_singleton in Hx as ->. lia.
  - apply elem_of_cons in Hx as [->|Hx]; [|by apply IH].
    etrans; [|apply (IH b); by apply elem_of_cons; left].
    by inversion Ha.
Qed.

Lemma last_elem (l : list Z) d : l ≠ [] → List.last l d ∈ l.
Proof.
  induction l as [|a l IH]; [done|]. intros _. destruct l as [|b l]; simpl.
  - by apply elem_of_cons; left.
  - apply elem_of_cons; right. by apply IH.
Qed.

(** X16.  [get_list_stats] of an empty list is all zeros; of a non-empty
    list, its minimum and maximum are members of the list that bound every
    member. *)
Theorem get_list_stats_bounds rt (num_list : list Z) :
  (num_list = [] →
   get_list_stats rt num_list
   = {| FileStats.s_min := 0; FileStats.s_max := 0;
        FileStats.s_mean := Int 0; FileStats.s_median := Int 0 |})
  ∧ (num_list ≠ [] →
     let stats := get_list_stats rt num_list in
     FileStats.s_min stats ∈ num_list
     ∧ FileStats.s_max stats ∈ num_list
     ∧ ∀ x, x ∈ num_list → FileStats.s_min stats ≤ x ≤ FileStats.s_max stats).
Proof.
  split; [by intros ->|]. intros Hne. unfold get_list_stats.
  rewrite bool_decide_eq_false_2 by done. simpl.
  pose proof (merge_sort_Permutation Z.le num_list) as Hperm.
  pose proof (StronglySorted_merge_sort Z.le num_list) as Hsorted.
  remember (merge_sort Z.le num_list) as data eqn:E. clear E.
  assert (Hin : ∀ x, x ∈ data ↔ x ∈ num_list) by (intros x; by rewrite Hperm).
  destruct data as [|a data].
  { symmetry in Hperm. by apply Permutation_nil_r in Hperm. }
  split; [|split].
  - apply Hin. by apply elem_of_cons; left.
  - apply Hin. by apply last_elem.
  - intros x Hx%Hin. split.
    + simpl. apply elem_of_cons in Hx as [->|Hx]; [lia|].
      apply StronglySorted_inv in Hsorted as [_ Ha].
      by apply (proj1 (Forall_forall _ _) Ha).
    + by apply sorted_last_max.
Qed.

Lemma get_list_stats_bounds_witness :
  FileStats.s_min (get_list_stats Examples.plain_runtime [5; 3; 1]) ≤ 3
  ≤ FileStats.s_max (get_list_stats Examples.plain_runtime [5; 3; 1]).
Proof.
  apply (proj2 (get_list_stats_bounds Examples.plain_runtime [5; 3; 1]) ltac:(done)).
  apply elem_of_cons; right. apply elem_of_cons; by left.
Defined.

(** ** Text measurements *)

Lemma sum_Z_cons x l : sum_Z (x :: l) = x + sum_Z l.
Proof. done. Qed.

Lemma splitlines_from_bounds s :
  ∀ cur,
    len (splitlines_from cur s) ≤ len s + (if bool_decide (cur = []) then 0 else 1)
    ∧ sum_Z (len <$> splitlines_from cur s) ≤ len cur + len s.
Proof.
  unfold len. induction s as [|c s IH]; intros cur.
  - simpl. case_bool_decide; simpl; unfold sum_Z; simpl; lia.
  - cbn [splitlines_from].
    assert (Hbreak : len (cur :: splitlines_from [] s) ≤ len (c :: s)
                     ∧ sum_Z (len <$> cur :: splitlines_from [] s) ≤ len cur + len (c :: s)).
    { destruct (IH []) as [H1 H2]. unfold len in *. rewrite fmap_cons, sum_Z_cons.
      simpl in *. lia. }
    unfold len in Hbreak.
    destruct (c =? 13)%N.
    + destruct s as [|d s'].
      * simpl. unfold sum_Z. simpl. case_bool_decide; lia.
      * destruct (d =? 10)%N eqn:Ed.
        -- apply N.eqb_eq in Ed as ->.
           destruct (IH []) as [H1 H2]. cbn [splitlines_from] in H1, H2.
           change (10 =? 13)%N with false in H1, H2.
           change (is_linebreak 10) with true in H1, H2. cbv iota in H1, H2.
           rewrite fmap_cons, sum_Z_cons in *. simpl in *.
           case_bool_decide; lia.
        -- case_bool_decide; lia.
    + destruct (is_linebreak c).
      * case_bool_decide; lia.
      * destruct (IH (cur ++ [c])) as [H1 H2].
        rewrite bool_decide_eq_false_2 in H1 by by destruct cur.
        rewrite length_app in H2. simpl in *. case_bool_decide; lia.
Qed.

Lemma counter_total_insert (m : Counter) k v :
  counter_total (<[k := v]> m) = v + counter_total (delete k m).
Proof.
  unfold counter_total. rewrite <- insert_delete_eq.
  rewrite map_fold_insert_L; [done| |apply lookup_delete_eq].
  intros. lia.
Qed.

Lemma counter_total_lookup (m : Counter) k :
  counter_total m = counter_get m k + counter_total (delete k m).
Proof.
  unfold counter_get. destruct (m !! k) as [v|] eqn:E; simpl.
  - rewrite <- (insert_delete_id m k v E) at 1. rewrite counter_total_insert.
    by rewrite delete_delete_eq.
  - by rewrite delete_id.
Qed.

Lemma counter_total_update_list (c : Counter) words :
  counter_total (counter_update_list c words) = counter_total c + len words.
Proof.
  unfold counter_update_list, len. revert c.
  induction words as [|w words IH]; intros c; simpl; [lia|].
  rewrite IH. unfold counter_incr. rewrite counter_total_insert.
  rewrite (counter_total_lookup c w). lia.
Qed.

(** X17.  For a file measured as text, the character count is the length
    of the content; the count without whitespace is between zero and the
    character count; the line count and the sum of the line lengths are at
    most the character count, and no line length is negative; and the
    [words] entry of the dictionary is the number of words of the
    content. *)
Theorem text_metrics_bounds rt fs filepath root_dir st content :
  Fs.stat fs filepath = Ok st →
  is_binary_file rt fs filepath = Ok false →
  Fs.read_text fs filepath = Ok content →
  ∃ r, calculate_stats rt fs filepath root_dir = Ok r
       ∧ FileStats.skipped r = Flag false
       ∧ FileStats.char_count r = len content
       ∧ 0 ≤ FileStats.char_count_no_space r ≤ FileStats.char_count r
       ∧ 0 ≤ FileStats.line_count r ≤ FileStats.char_count r
       ∧ sum_Z (FileStats.lines_lengths r) ≤ FileStats.char_count r
       ∧ Forall (λ n, 0 ≤ n) (FileStats.lines_lengths r)
       ∧ FileStats.d_words (FileStats.to_dict rt r)
         = len (split (punctuation_to_space content)).
Proof.
  intros Hst Hb Hr.
  destruct (init_returns fs (Some filepath) (Some root_dir)) as [rel Hinit].
  rewrite (calculate_stats_text rt fs filepath root_dir _ Hinit st content) by done.
  destruct (measure_text_spec rt filepath content
              (sized_record rt filepath st (blank_record (Some filepath) rel)))
    as (avg & cmax & fc & ->).
  eexists. split; [reflexivity|]. simpl.
  destruct (splitlines_from_bounds content []) as [H1 H2]. simpl in H1, H2.
  fold (splitlines content) in H1, H2.
  repeat split; try done.
  - unfold len. lia.
  - unfold delete_whitespace, len. pose proof (length_filter (λ c, in_string_whitespace c = false) content). lia.
  - unfold len. lia.
  - lia.
  - apply Forall_forall. intros n (line & -> & _)%list_elem_of_fmap. unfold len. lia.
  - rewrite counter_total_update_list. unfold counter_total. by rewrite map_fold_empty.
Qed.

Lemma text_metrics_bounds_witness :
  ∃ r, calculate_stats Examples.plain_runtime Examples.hello_fs
         (lit "/proj/hello.txt") (lit "/proj") = Ok r
       ∧ FileStats.char_count r = 13
       ∧ FileStats.d_words (FileStats.to_dict Examples.plain_runtime r) = 2.
Proof.
  destruct (text_metrics_bounds Examples.plain_runtime Examples.hello_fs
              (lit "/proj/hello.txt") (lit "/proj")
              {| Fs.st_size := 13; Fs.st_blocks := Some 8 |} (lit "Hello, hello!")
              ltac:(vm_compute; reflexivity) ltac:(vm_compute; reflexivity)
              ltac:(vm_compute; reflexivity))
    as (r & Hr & _ & Hc & _ & _ & _ & _ & Hw).
  exists r. split; [done|]. split; [by rewrite Hc | by rewrite Hw].
Defined.

(** ** The complexity analysis *)

Lemma fold_max_spec (l : list Z) x :
  let m := fold_left Z.max l x in
  (m = x ∨ m ∈ l) ∧ x ≤ m ∧ ∀ y, y ∈ l → y ≤ m.
Proof.
  revert x. induction l as [|a l IH]; intros x; simpl.
  - split; [by left|]. split; [lia|]. intros y Hy. by apply elem_of_nil in Hy.
  - destruct (IH (Z.max x a)) as (Hm & Hle & Hall). split; [|split].
    + destruct Hm as [Hm|Hm]; [|right; by apply elem_of_cons; right].
      rewrite Hm. destruct (Z.max_spec x a) as [[_ ->]|[_ ->]]; [right|by left].
      by apply elem_of_cons; left.
    + lia.
    + intros y [->|Hy]%elem_of_cons; [lia | by apply Hall].
Qed.

Lemma py_max_spec (l : list Z) :
  l ≠ [] → ∃ m, py_max l = Ok m ∧ m ∈ l ∧ ∀ y, y ∈ l → y ≤ m.
Proof.
  destruct l as [|x l]; [done|]. intros _. simpl. eexists. split; [done|].
  destruct (fold_max_spec l x) as (Hm & Hle & Hall). split.
  - destruct Hm as [->|Hm]; apply elem_of_cons; auto.
  - intros y [->|Hy]%elem_of_cons; auto.
Qed.

(** X18.  [analyze_complexity] leaves the record untouched when [lizard]
    is missing, when the record is skipped and when the analysis fails;
    when the analysis finds no function it only sets the function count to
    zero; otherwise it records the number of functions, the rounded
    average and, as maximal complexity, a member of the list of
    complexities that bounds every member.  It never raises. *)
Theorem analyze_complexity_is_fail_soft rt filepath stats :
  (lizard_analyze_file rt = None ∨ truthy (FileStats.skipped stats) = true →
   analyze_complexity rt filepath stats = (Ok tt, stats))
  ∧ (∀ analyze_file,
       lizard_analyze_file rt = Some analyze_file →
       truthy (FileStats.skipped stats) = false →
       match analyze_file filepath with
       | None => analyze_complexity rt filepath stats = (Ok tt, stats)
       | Some analysis =>
           if bool_decide (function_list analysis = []) then
             analyze_complexity rt filepath stats
             = (Ok tt, FileStats.set_functions_count 0 stats)
           else
             ∃ m, m ∈ function_list analysis
                  ∧ (∀ c, c ∈ function_list analysis → c ≤ m)
                  ∧ analyze_complexity rt filepath stats
                    = (Ok tt, with_complexity
                                (round2 rt (average_cyclomatic_complexity analysis)) m
                                (len (function_list analysis)) stats)
       end).
Proof.
  unfold analyze_complexity, bind, get. split.
  - intros [->|Hs]; [done|]. destruct (lizard_analyze_file rt); [|done]. by rewrite Hs.
  - intros analyze_file -> Hs. rewrite Hs. unfold try_except, lift, modify, ret.
    destruct (analyze_file filepath) as [analysis|]; simpl; [|done].
    destruct stats. simpl. case_bool_decide as Hl.
    + by rewrite Hl.
    + destruct (py_max_spec (function_list analysis) Hl) as (m & Hm & Hin & Hall).
      exists m. split; [done|]. split; [done|].
      assert (Hpos : (len (function_list analysis) >? 0) = true).
      { unfold len. apply Z.gtb_lt. destruct (function_list analysis); [done|].
        simpl length. lia. }
      rewrite Hpos, Hm. done.
Qed.

Lemma analyze_complexity_is_fail_soft_witness :
  analyze_complexity Examples.lizard_runtime (lit "/proj/a.txt") (blank_record None None)
  = (Ok tt, FileStats.set_functions_count 0 (blank_record None None)).
Proof.
  exact (proj2 (analyze_complexity_is_fail_soft Examples.lizard_runtime (lit "/proj/a.txt")
                  (blank_record None None)) _ eq_refl eq_refl).
Defined.

(** ** Complexity that was not computed *)







(** ** The path attributes of a record *)

Lemma endswith_app_plain a c : c ≠ [] → sep ∉ c → endswith (a ++ c) [sep] = false.
Proof.
  intros Hne Hc. unfold endswith. change (reverse [sep]) with [sep].
  rewrite reverse_app. destruct (reverse c) as [|d r] eqn:E.
  - apply (f_equal reverse) in E. rewrite reverse_involutive in E. done.
  - rewrite <- app_comm_cons, startswith_sep_cons. apply N.eqb_neq. intros <-.
    apply Hc. rewrite <- (reverse_involutive c), E. apply elem_of_reverse.
    by apply elem_of_cons; left.
Qed.

Lemma fold_join_plain cs a :
  forallb plain_name cs = true → a ≠ [] → endswith a [sep] = false →
  fold_left join cs a = join_with sep (a :: cs).
Proof.
  revert a. induction cs as [|c cs IH]; intros a; [done|].
  cbn [forallb fold_left]. intros [Hc Hcs]%andb_true_iff Ha He.
  pose proof (plain_name_spec c Hc) as (Hne & Hsep & _).
  assert (Hj : join a c = a ++ sep :: c).
  { unfold join. rewrite startswith_plain, (bool_decide_eq_false_2 (a = [])), He by done.
    done. }
  rewrite Hj, IH; [|done|by destruct a|].
  - destruct cs; cbn [join_with]; by rewrite <- ?app_assoc.
  - by apply (endswith_app_plain (a ++ [sep]) c) in Hsep; [rewrite <- app_assoc in Hsep|].
Qed.

Lemma join_all_plain comps :
  forallb plain_name comps = true → join_all comps = join_with sep comps.
Proof.
  destruct comps as [|a cs]; [done|]. cbn [forallb join_all].
  intros [Ha Hcs]%andb_true_iff. pose proof (plain_name_spec a Ha) as (Hne & Hsep & _).
  apply fold_join_plain; [done|done|]. by apply (endswith_app_plain [] a).
Qed.

Lemma basename_join_with comps :
  forallb plain_name comps = true →
  basename (join_with sep comps) = default [] (last comps).
Proof.
  induction comps as [|a cs IH]; [done|]. cbn [forallb].
  intros [Ha Hcs]%andb_true_iff. pose proof (plain_name_spec a Ha) as (Hne & Hsep & _).
  destruct cs as [|c cs].
  - simpl. unfold basename. by rewrite basename_from_plain.
  - cbn [join_with]. unfold basename. rewrite basename_from_app.
    rewrite last_cons_cons. by apply IH.
Qed.

Lemma calculate_stats_identity rt fs filepath root_dir stats :
  FileStats.init fs (Some filepath) (Some root_dir) = Ok stats →
  ∃ r, calculate_stats rt fs filepath root_dir = Ok r
       ∧ FileStats.filepath r = FileStats.filepath stats
       ∧ FileStats.relpath r = FileStats.relpath stats
       ∧ FileStats.filename r = FileStats.filename stats.
Proof.
  intros Hinit. destruct (Fs.stat fs filepath) as [st|e] eqn:Hst.
  - destruct (is_binary_file_returns rt fs filepath) as [[|] Hb].
    + rewrite (calculate_stats_binary rt fs filepath root_dir stats Hinit st) by done.
      eexists. split; [done|]. by destruct stats.
    + destruct (Fs.read_text fs filepath) as [content|e] eqn:Hr.
      * rewrite (calculate_stats_text rt fs filepath root_dir stats Hinit st content)
          by done.
        destruct (measure_text_spec rt filepath content (sized_record rt filepath st stats))
          as (avg & cmax & fc & ->).
        eexists. split; [done|]. by destruct stats.
      * rewrite (calculate_stats_unreadable rt fs filepath root_dir stats Hinit st e)
          by done.
        eexists. split; [done|]. by destruct stats.
  - rewrite (calculate_stats_stat_fails rt fs filepath root_dir stats Hinit e) by done.
    eexists. split; [done|]. by destruct stats.
Qed.

(** X19.  For an entry below an absolute root, named by the root joined
    to its relative path, [calculate_stats] records the path given, the
    relative path with its components joined by the separator, and the
    last component as file name, whatever becomes of the measurement; the
    dictionary carries the same relative path and name. *)
Theorem record_paths_below_root rt fs root comps :
  isabs root = true →
  forallb plain_name comps = true →
  comps ≠ [] →
  let filepath := join root (join_with sep comps) in
  ∃ r, calculate_stats rt fs filepath root = Ok r
       ∧ FileStats.filepath r = Some filepath
       ∧ FileStats.relpath r = Some (join_with sep comps)
       ∧ FileStats.filename r = default [] (last comps)
       ∧ FileStats.d_path (FileStats.to_dict rt r) = Some (join_with sep comps)
       ∧ FileStats.d_name (FileStats.to_dict rt r) = default [] (last comps).
Proof.
  intros Habs Hplain Hne filepath.
  assert (Hp : filepath ≠ []) by (apply isabs_nonempty; by apply join_below_abs).
  assert (Hr : root ≠ []) by by apply isabs_nonempty.
  assert (Hinit : FileStats.init fs (Some filepath) (Some root)
                  = Ok (blank_record (Some filepath) (Some (join_with sep comps)))).
  { unfold FileStats.init, blank_record.
    assert (Hn : ∀ p : str, p ≠ [] → FileStats.nonempty (Some p) = Some p)
      by (by intros [|c p]).
    rewrite !Hn by done.
    rewrite (relpath_below root comps Habs Hplain Hne (Fs.fs_cwd fs) filepath Hp).
    - simpl. by rewrite join_all_plain.
    - unfold abspath. unfold filepath. by rewrite join_below_abs. }
  destruct (calculate_stats_identity rt fs filepath root _ Hinit) as (r & Hcalc & H1 & H2 & H3).
  assert (Hf : FileStats.filename
                 (blank_record (Some filepath) (Some (join_with sep comps)))
               = default [] (last comps)).
  { unfold blank_record. simpl. destruct filepath eqn:E; [done|]. rewrite <- E.
    unfold filepath. by rewrite basename_below, basename_join_with. }
  rewrite Hf in H3.
  exists r. split; [done|]. unfold FileStats.to_dict. simpl. by rewrite H1, H2, H3.
Qed.

Lemma record_paths_below_root_witness :
  ∃ r, calculate_stats Examples.plain_runtime (Examples.build_fs true "/")
         (lit "/proj/build/out.o") (lit "/proj") = Ok r
       ∧ FileStats.relpath r = Some (lit "build/out.o")
       ∧ FileStats.filename r = lit "out.o".
Proof.
  destruct (record_paths_below_root Examples.plain_runtime (Examples.build_fs true "/")
              (lit "/proj") [lit "build"; lit "out.o"] eq_refl eq_refl ltac:(done))
    as (r & Hr & _ & Hrel & Hname & _).
  by exists r.
Defined.

(** ** The largest files of the HTML report *)

Lemma insert_by_lines_perm x l : insert_by_lines x l ≡ₚ x :: l.
Proof.
  induction l as [|y l IH]; simpl; [done|].
  destruct (FileStats.line_count y >? FileStats.line_count x); [|done].
  rewrite IH. apply Permutation_swap.
Qed.

Lemma sorted_by_lines_perm l : sorted_by_lines l ≡ₚ l.
Proof.
  unfold sorted_by_lines. induction l as [|x l IH]; simpl; [done|].
  by rewrite insert_by_lines_perm, IH.
Qed.

Lemma insert_by_lines_sorted x l :
  StronglySorted more_lines l → StronglySorted more_lines (insert_by_lines x l).
Proof.
  induction 1 as [|y l Hs IH Hy]; simpl; [by repeat constructor|].
  destruct (Z.gtb_spec (FileStats.line_count y) (FileStats.line_count x)) as [Hgt|Hle].
  - constructor; [done|]. rewrite insert_by_lines_perm. constructor; [|done].
    unfold more_lines. lia.
  - constructor; [by constructor|]. constructor; [done|].
    eapply Forall_impl; [done|]. unfold more_lines. intros z Hz. lia.
Qed.

Lemma sorted_by_lines_sorted l : StronglySorted more_lines (sorted_by_lines l).
Proof.
  unfold sorted_by_lines. induction l as [|x l IH]; simpl; [constructor|].
  by apply insert_by_lines_sorted.
Qed.

(** X20.  The files charted by the HTML report are the first twenty of the
    records sorted by decreasing line count: together with the records left
    out they are the records given; there are twenty of them, or all the
    records if there are fewer; they come in decreasing order of line
    count; and none of the records left out has more lines than one of
    them. *)
Theorem top_files_are_the_largest l :
  let top := top_files_by_lines l in
  let rest := drop 20 (sorted_by_lines l) in
  top ++ rest ≡ₚ l
  ∧ length top = (20 `min` length l)%nat
  ∧ StronglySorted more_lines top
  ∧ ∀ a b, a ∈ top → b ∈ rest → FileStats.line_count b ≤ FileStats.line_count a.
Proof.
  intros top rest. unfold top, rest, top_files_by_lines.
  pose proof (sorted_by_lines_sorted l) as Hs.
  rewrite <- (take_drop 20 (sorted_by_lines l)) in Hs.
  split; [by rewrite take_drop, sorted_by_lines_perm|]. split; [|split].
  - by rewrite length_take, sorted_by_lines_perm.
  - by eapply StronglySorted_app_1_l.
  - intros a b Ha Hb. by apply (StronglySorted_app_1_elem_of _ _ _ a b Hs).
Qed.

Lemma top_files_are_the_largest_witness :
  let small := blank_record None None in
  let large := FileStats.set_line_count 3 small in
  let l := replicate 21 small ++ [large] in
  length (top_files_by_lines l) = 20%nat
  ∧ head (top_files_by_lines l) = Some large
  ∧ FileStats.line_count small ≤ FileStats.line_count large.
Proof.
  intros small large l.
  destruct (top_files_are_the_largest l) as (_ & Hlen & _ & Hmax).
  split; [rewrite Hlen; reflexivity|]. split; [vm_compute; reflexivity|].
  apply Hmax.
  - replace (top_files_by_lines l) with (large :: replicate 19 small)
      by (vm_compute; reflexivity).
    apply elem_of_cons. by left.
  - replace (drop 20 (sorted_by_lines l)) with [small; small] by (vm_compute; reflexivity).
    apply elem_of_cons. by left.
Defined.
